(** * A single-level timer wheel (timer_pool/timer_mgr.h), shallow embedding.

    The shared-memory block of [TimerMgr] (a [TimerHead], [kTimerBucketNum]
    bucket heads and [timer_num + 1] slots) is modelled as a record of the head
    and two functional arrays indexed by [Z].  Clock readings
    ([gettimeofday]/[time]) become arguments; the virtual [OnTimeout] hook is a
    section variable, so a callback may do anything to the wheel (in
    particular call [AddTimer] or [DelTimer]).  Loops that the C++ runs
    without bound get a [fuel] argument; [None] means the fuel ran out. *)

From Stdlib Require Import ZArith List Bool Lia NArith Permutation.
Import ListNotations.
Open Scope Z_scope.

Definition kTimerBucketNum : Z := 60.

(** [uint32_t] / [size_t] wrap-around and the [int] conversion of a
    [uint64_t] difference. *)
Definition u32 (x : Z) : Z := x mod 2 ^ 32.
Definition u64 (x : Z) : Z := x mod 2 ^ 64.
Definition to_int32 (x : Z) : Z :=
  let y := x mod 2 ^ 32 in if y <? 2 ^ 31 then y else y - 2 ^ 32.

(** C truthiness of a [size_t] / [int]: [x != 0]; for [size_t] also [x > 0]. *)
Definition nz (x : Z) : bool := negb (x =? 0).

(** [union TimerID { uint64_t id; struct { uint32_t pos; uint32_t seq; }; }]
    on a little-endian target. *)
Definition mk_id (pos sq : Z) : Z := u32 pos + u32 sq * 2 ^ 32.
Definition id_pos (id : Z) : Z := id mod 2 ^ 32.
Definition id_seq (id : Z) : Z := id / 2 ^ 32.

Section TimerMgr.

Context {Data : Type}.

Record TimerObj := mkObj {
  prev : Z;
  next : Z;
  used : Z;
  interval_ms : Z;
  max_fire_count : Z;
  fire_count : Z;
  expire : Z;
  timer_id : Z;
  timer_data : Data
}.

Record TimerHead := mkHead {
  max_size : Z;
  data_size : Z;
  max_num : Z;
  used_num : Z;
  cur_bucket_pos : Z;
  cur_bucket_time : Z;
  free_head : Z;
  seq : Z
}.

Record Wheel := mkWheel {
  timer_head : TimerHead;
  timer_bucket : Z -> Z;
  timer_obj : Z -> TimerObj
}.

Definition upd {A : Type} (f : Z -> A) (i : Z) (v : A) : Z -> A :=
  fun j => if j =? i then v else f j.

(** Field writes [timer_obj_[p].f = v], [timer_bucket_[b].head = v] and
    [timer_head_->f = v]. *)
Definition set_obj (s : Wheel) (p : Z) (o : TimerObj) : Wheel :=
  mkWheel (timer_head s) (timer_bucket s) (upd (timer_obj s) p o).

Definition with_prev (o : TimerObj) (v : Z) : TimerObj :=
  mkObj v (next o) (used o) (interval_ms o) (max_fire_count o) (fire_count o)
    (expire o) (timer_id o) (timer_data o).
Definition with_next (o : TimerObj) (v : Z) : TimerObj :=
  mkObj (prev o) v (used o) (interval_ms o) (max_fire_count o) (fire_count o)
    (expire o) (timer_id o) (timer_data o).
Definition with_used (o : TimerObj) (v : Z) : TimerObj :=
  mkObj (prev o) (next o) v (interval_ms o) (max_fire_count o) (fire_count o)
    (expire o) (timer_id o) (timer_data o).
Definition with_fire_count (o : TimerObj) (v : Z) : TimerObj :=
  mkObj (prev o) (next o) (used o) (interval_ms o) (max_fire_count o) v
    (expire o) (timer_id o) (timer_data o).
Definition with_expire (o : TimerObj) (v : Z) : TimerObj :=
  mkObj (prev o) (next o) (used o) (interval_ms o) (max_fire_count o)
    (fire_count o) v (timer_id o) (timer_data o).

Definition obj (s : Wheel) (p : Z) : TimerObj := timer_obj s p.
Definition bucket (s : Wheel) (b : Z) : Z := timer_bucket s b.

Definition set_prev (s : Wheel) (p v : Z) : Wheel := set_obj s p (with_prev (obj s p) v).
Definition set_next (s : Wheel) (p v : Z) : Wheel := set_obj s p (with_next (obj s p) v).
Definition set_used (s : Wheel) (p v : Z) : Wheel := set_obj s p (with_used (obj s p) v).
Definition set_fire_count (s : Wheel) (p v : Z) : Wheel :=
  set_obj s p (with_fire_count (obj s p) v).
Definition set_expire (s : Wheel) (p v : Z) : Wheel := set_obj s p (with_expire (obj s p) v).

Definition set_bucket (s : Wheel) (b v : Z) : Wheel :=
  mkWheel (timer_head s) (upd (timer_bucket s) b v) (timer_obj s).

Definition set_head (s : Wheel) (h : TimerHead) : Wheel :=
  mkWheel h (timer_bucket s) (timer_obj s).

Definition set_free_head (s : Wheel) (v : Z) : Wheel :=
  let h := timer_head s in
  set_head s (mkHead (max_size h) (data_size h) (max_num h) (used_num h)
                (cur_bucket_pos h) (cur_bucket_time h) v (seq h)).
Definition set_used_num (s : Wheel) (v : Z) : Wheel :=
  let h := timer_head s in
  set_head s (mkHead (max_size h) (data_size h) (max_num h) v
                (cur_bucket_pos h) (cur_bucket_time h) (free_head h) (seq h)).
Definition set_seq (s : Wheel) (v : Z) : Wheel :=
  let h := timer_head s in
  set_head s (mkHead (max_size h) (data_size h) (max_num h) (used_num h)
                (cur_bucket_pos h) (cur_bucket_time h) (free_head h) v).
(** [cur_bucket_pos = now % kTimerBucketNum; cur_bucket_time = now;] *)
Definition set_cur (s : Wheel) (now : Z) : Wheel :=
  let h := timer_head s in
  set_head s (mkHead (max_size h) (data_size h) (max_num h) (used_num h)
                (now mod kTimerBucketNum) now (free_head h) (seq h)).

(** ** Slot arena: [AllocNode] and [FreeNode]. *)

Definition AllocNode (s : Wheel) : Z * Wheel :=
  let h := timer_head s in
  if nz (free_head h) && (used_num h <=? max_num h) then
    let position := free_head h in
    let s1 := set_free_head s (next (obj s position)) in
    let s2 := set_used_num s1 (u64 (used_num (timer_head s1) + 1)) in
    let s3 := set_used s2 position 1 in
    let s4 := set_prev s3 position 0 in
    let s5 := set_next s4 position 0 in
    (position, s5)
  else (0, s).

Definition FreeNode (position : Z) (s : Wheel) : Wheel :=
  let s1 := set_used s position 0 in
  let s2 := set_prev s1 position 0 in
  let s3 := set_next s2 position (free_head (timer_head s2)) in
  let s4 := set_free_head s3 position in
  set_used_num s4 (u64 (used_num (timer_head s4) - 1)).

(** Insertion at the front of bucket [b] (as written in [AddTimer] and in the
    re-arming branch of [Update]). *)
Definition link_front (b position : Z) (s : Wheel) : Wheel :=
  let s1 := set_prev s position 0 in
  let s2 := set_next s1 position (bucket s1 b) in
  let s3 := if nz (bucket s2 b) then set_prev s2 (bucket s2 b) position else s2 in
  set_bucket s3 b position.

(** ** [Init(mem, max_size, timer_num, fresh = true)].
    [mem] is the previous content of the buffer: [Init] overwrites the head,
    the bucket heads and the [prev]/[next] links of slots [1..timer_num]
    only.  [obj_size] is [sizeof(TimerObj)], [data_size] is
    [sizeof(TimerDataType)], [now_sec] the [gettimeofday] seconds and
    [time_now] the value of [time(NULL)]. *)
Definition TotalMemSize (obj_size timer_num : Z) : Z :=
  64 + 8 * kTimerBucketNum + (timer_num + 1) * obj_size.

Fixpoint thread_free (k : nat) (s : Wheel) : Wheel :=
  match k with
  | O => s
  | S k' =>
      let i := Z.of_nat k in
      let s1 := set_prev s i 0 in
      let s2 := set_next s1 i (free_head (timer_head s1)) in
      thread_free k' (set_free_head s2 i)
  end.

Definition Init (mem : Wheel) (max_size0 data_size0 obj_size timer_num now_sec time_now : Z)
  : option Wheel :=
  if max_size0 <? TotalMemSize obj_size timer_num then None
  else
    let h := mkHead max_size0 data_size0 timer_num 0 (now_sec mod kTimerBucketNum)
               now_sec 0 (u32 time_now) in
    let bk := fun i => if (0 <=? i) && (i <? kTimerBucketNum) then 0 else timer_bucket mem i in
    Some (thread_free (Z.to_nat timer_num) (mkWheel h bk (timer_obj mem))).

(** ** [Init(mem, max_size, timer_num, fresh)], both branches, with the
    returned [int]: [fresh] builds the wheel as [Init] above; otherwise the
    block [mem] is re-attached as it is, after checking its [max_size],
    [data_size] ([sizeof(TimerDataType)]) and [max_num] against the
    arguments. *)
Definition Init_mem (mem : Wheel) (max_size0 data_size0 obj_size timer_num : Z) (fresh : bool)
  (now_sec time_now : Z) : Z * Wheel :=
  if max_size0 <? TotalMemSize obj_size timer_num then (-1, mem)
  else if fresh then
    match Init mem max_size0 data_size0 obj_size timer_num now_sec time_now with
    | Some s => (0, s)
    | None => (-1, mem)
    end
  else if negb (max_size (timer_head mem) =? max_size0) then (-1, mem)
  else if negb (data_size (timer_head mem) =? data_size0) then (-2, mem)
  else if negb (max_num (timer_head mem) =? timer_num) then (-3, mem)
  else (0, mem).

(** [Init(key, timer_num)]: for [key == 0] a fresh block of exactly
    [TotalMemSize(timer_num)] bytes (previous content [mem]) is passed to
    [Init(mem, max_size, timer_num)]; any other key returns [0] without
    setting up a wheel ([None]: [timer_head_] stays [NULL]). *)
Definition Init_key (key : Z) (mem : Wheel) (data_size0 obj_size timer_num now_sec time_now : Z)
  : Z * option Wheel :=
  if key =? 0 then
    let '(r, s) := Init_mem mem (TotalMemSize obj_size timer_num) data_size0 obj_size timer_num
                     true now_sec time_now in
    (r, Some s)
  else (0, None).

(** [Size()] and [Capacity()]. *)
Definition Size (s : Wheel) : Z := used_num (timer_head s).
Definition Capacity (s : Wheel) : Z := max_num (timer_head s).

(** ** [AddTimer].  Each error return is its own constructor (the C++ writes a
    different [error_msg_] at each); [add_ret] gives the returned [int]. *)
Inductive AddResult :=
  | AddOk (id : Z)
  | AddInvalidParam
  | AddClockRegression
  | AddNoNode.

Definition add_ret (r : AddResult) : Z :=
  match r with AddOk _ => 0 | AddInvalidParam => -1 | AddClockRegression => -1 | AddNoNode => -2 end.

Definition AddTimer (now interval fire_cnt : Z) (d : Data) (s : Wheel) : AddResult * Wheel :=
  if (interval <=? 0) || (kTimerBucketNum <? interval) || (fire_cnt <? 0) then (AddInvalidParam, s)
  else
    let exp := now + interval in
    if exp <? cur_bucket_time (timer_head s) then (AddClockRegression, s)
    else
      let '(position, s1) := AllocNode s in
      if position =? 0 then (AddNoNode, s1)
      else
        let sq := seq (timer_head s1) in
        let s2 := set_seq s1 (u32 (sq + 1)) in
        let o := obj s2 position in
        let s3 := set_obj s2 position
                    (mkObj (prev o) (next o) (used o) interval fire_cnt 0 exp
                       (mk_id position sq) d) in
        let s4 := link_front (exp mod kTimerBucketNum) position s3 in
        (AddOk (timer_id (obj s4 position)), s4).

(** ** [DelTimer]. *)
Inductive DelResult :=
  | DelOk
  | DelBadPos
  | DelBadId
  | DelNotFound.

Definition del_ret (r : DelResult) : Z :=
  match r with DelOk => 0 | _ => -1 end.

(** [while (next > 0) { if (id matches) break; next = timer_obj_[next].next; }] *)
Fixpoint find_in_bucket (fuel : nat) (o : Z -> TimerObj) (id nxt : Z) : option Z :=
  match fuel with
  | O => None
  | S f =>
      if nxt =? 0 then Some 0
      else if timer_id (o nxt) =? id then Some nxt
      else find_in_bucket f o id (next (o nxt))
  end.

Definition unlink_del (b nx : Z) (s : Wheel) : Wheel :=
  let o := obj s nx in
  let s1 := if prev o =? 0 then set_bucket s b (next o) else set_next s (prev o) (next o) in
  let o1 := obj s1 nx in
  if nz (next o1) then set_prev s1 (next o1) (prev o1) else s1.

Definition DelTimer (fuel : nat) (id : Z) (s : Wheel) : option (DelResult * Wheel) :=
  let pos := id_pos id in
  if (pos =? 0) || (max_num (timer_head s) <? pos) then Some (DelBadPos, s)
  else if negb (timer_id (obj s pos) =? id) || (used (obj s pos) =? 0) then Some (DelBadId, s)
  else
    let b := expire (obj s pos) mod kTimerBucketNum in
    match find_in_bucket fuel (timer_obj s) id (bucket s b) with
    | None => None
    | Some nx => if nz nx then Some (DelOk, FreeNode nx (unlink_del b nx s))
                 else Some (DelNotFound, s)
    end.

(** ** [GetExpireTime] (a [const] member: no state change). *)
Inductive GetResult :=
  | GetOk (expire_time : Z)
  | GetBadPos
  | GetBadId.

Definition GetExpireTime (id : Z) (s : Wheel) : GetResult :=
  let pos := id_pos id in
  if (pos =? 0) || (max_num (timer_head s) <? pos) then GetBadPos
  else if negb (timer_id (obj s pos) =? id) || (used (obj s pos) =? 0) then GetBadId
  else GetOk (expire (obj s pos)).

(** ** [Update]. *)
Variable OnTimeout : Z -> Data -> Wheel -> Wheel.

(** Unlinking the current slot from bucket [(cur_bucket_pos + i) % B]. *)
Definition unlink_update (i pos : Z) (s : Wheel) : Wheel :=
  let o := obj s pos in
  if nz (prev o) then
    let s1 := set_next s (prev o) (next o) in
    let o1 := obj s1 pos in
    if nz (next o1) then set_prev s1 (next o1) (prev o1) else s1
  else
    let s1 := set_bucket s ((cur_bucket_pos (timer_head s) + i) mod kTimerBucketNum) (next o) in
    let o1 := obj s1 pos in
    if nz (next o1) then set_prev s1 (next o1) 0 else s1.

Definition retire_or_rearm (now pos : Z) (s : Wheel) : Wheel :=
  let o := obj s pos in
  if nz (max_fire_count o) && (max_fire_count o <=? fire_count o) then FreeNode pos s
  else
    let s1 := set_expire s pos (now + interval_ms o) in
    link_front (expire (obj s1 pos) mod kTimerBucketNum) pos s1.

(** One pass of the body of [while (pos > 0)]: the new state, the handle
    passed to [OnTimeout], and the value of [next] at the end of the body. *)
Definition walk_body (i now pos : Z) (s : Wheel) : Wheel * Z * Z :=
  let nx0 := next (obj s pos) in
  let s1 := set_fire_count s pos (fire_count (obj s pos) + 1) in
  let id := timer_id (obj s1 pos) in
  let s2 := OnTimeout id (timer_data (obj s1 pos)) s1 in
  if nz (used (obj s2 pos)) then
    let nx := next (obj s2 pos) in
    (retire_or_rearm now pos (unlink_update i pos s2), id, nx)
  else (s2, id, nx0).

(** The bucket walk; the trace lists the handles passed to [OnTimeout].
    [if (next && !timer_obj_[next].used) continue;] leaves [pos] unchanged. *)
Fixpoint walk (fuel : nat) (i now pos : Z) (s : Wheel) : option (Wheel * list Z) :=
  match fuel with
  | O => None
  | S f =>
      if pos =? 0 then Some (s, [])
      else
        let '(s1, id, nx) := walk_body i now pos s in
        let pos' := if nz nx && (used (obj s1 nx) =? 0) then pos else nx in
        match walk f i now pos' s1 with
        | None => None
        | Some (s2, tr) => Some (s2, id :: tr)
        end
  end.

(** [for (int i = 1; i <= wheel_count; i++)] *)
Fixpoint for_ticks (fuel : nat) (now i : Z) (k : nat) (s : Wheel) : option (Wheel * list Z) :=
  match k with
  | O => Some (s, [])
  | S k' =>
      let b := (cur_bucket_pos (timer_head s) + i) mod kTimerBucketNum in
      match walk fuel i now (bucket s b) s with
      | None => None
      | Some (s1, tr1) =>
          match for_ticks fuel now (i + 1) k' s1 with
          | None => None
          | Some (s2, tr2) => Some (s2, tr1 ++ tr2)
          end
      end
  end.

Definition Update (fuel : nat) (now : Z) (s : Wheel) : option (Wheel * list Z) :=
  if used_num (timer_head s) =? 0 then Some (set_cur s now, [])
  else
    let wheel_count := to_int32 (now - cur_bucket_time (timer_head s)) in
    match for_ticks fuel now 1 (Z.to_nat wheel_count) s with
    | None => None
    | Some (s', tr) => Some (set_cur s' now, tr)
    end.

End TimerMgr.

(** ** Representation of the intrusive lists.

    [dll o pv l hd]: the slots [l], in order, form a doubly-linked list that
    starts at [hd], whose first [prev] is [pv] and whose last [next] is 0.
    [sll o l hd]: the free list, linked through [next] only. *)
Section Lists.
Context {Data : Type}.
Notation Obj := (@TimerObj Data).
Notation W := (@Wheel Data).

Fixpoint dll (o : Z -> Obj) (pv : Z) (l : list Z) (hd : Z) : Prop :=
  match l with
  | [] => hd = 0
  | p :: l' => hd = p /\ prev (o p) = pv /\ dll o p l' (next (o p))
  end.

(** A list segment whose last [next] is [nx]. *)
Fixpoint dseg (o : Z -> Obj) (pv : Z) (l : list Z) (hd nx : Z) : Prop :=
  match l with
  | [] => hd = nx
  | p :: l' => hd = p /\ prev (o p) = pv /\ dseg o p l' (next (o p)) nx
  end.

Fixpoint sll (o : Z -> Obj) (l : list Z) (hd : Z) : Prop :=
  match l with
  | [] => hd = 0
  | p :: l' => hd = p /\ sll o l' (next (o p))
  end.

Definition hd0 (l : list Z) : Z := match l with [] => 0 | p :: _ => p end.

Fixpoint lastz (d : Z) (l : list Z) : Z :=
  match l with [] => d | p :: l' => lastz p l' end.

(** The slot without its links: what a relinking leaves unchanged. *)
Definition payload (o : Obj) : Obj := with_prev (with_next o 0) 0.

(** The bucket indices [0 .. kTimerBucketNum - 1]. *)
Definition buckets : list Z := map Z.of_nat (List.seq 0 60).

Definition linked (Ls : Z -> list Z) : list Z := flat_map Ls buckets.

(** Bucket lists [Ls] with the list of bucket [b] replaced by [l]. *)
Definition updL (Ls : Z -> list Z) (b : Z) (l : list Z) : Z -> list Z :=
  fun b' => if b' =? b then l else Ls b'.

(** Invariant of a wheel with bucket lists [Ls], free list [F] and in-use
    slots [D] that are momentarily in no list (between an unlink and the
    following relink or [FreeNode]). *)
Record WFD (s : W) (Ls : Z -> list Z) (F D : list Z) : Prop := {
  wf_buckets : forall b, 0 <= b < kTimerBucketNum -> dll (timer_obj s) 0 (Ls b) (bucket s b);
  wf_free : sll (timer_obj s) F (free_head (timer_head s));
  wf_nodup : NoDup (linked Ls ++ F ++ D);
  wf_range : forall p, In p (linked Ls ++ F ++ D) <-> 1 <= p <= max_num (timer_head s);
  wf_slot : forall b p, 0 <= b < kTimerBucketNum -> In p (Ls b) ->
      used (obj s p) <> 0 /\ expire (obj s p) mod kTimerBucketNum = b /\
      id_pos (timer_id (obj s p)) = p;
  wf_used_num : used_num (timer_head s) = Z.of_nat (length (linked Ls ++ D));
  wf_max : 0 <= max_num (timer_head s) < 2 ^ 32;
  wf_seq : 0 <= seq (timer_head s) < 2 ^ 32;
  wf_cur : cur_bucket_pos (timer_head s) = cur_bucket_time (timer_head s) mod kTimerBucketNum
}.

(** A well-formed wheel: every in-use slot is in its bucket's list. *)
Definition WF (s : W) (Ls : Z -> list Z) (F : list Z) : Prop := WFD s Ls F [].

(** Unlinking slot [p] from bucket [b] using only its own links: the common
    shape of the unlinking code in [DelTimer] and in [Update]. *)
Definition unlink_canon (b p : Z) (s : W) : W :=
  let o := obj s p in
  let s1 := if prev o =? 0 then set_bucket s b (next o) else set_next s (prev o) (next o) in
  if nz (next o) then set_prev s1 (next o) (prev o) else s1.

End Lists.

Section Basics.
Context {Data : Type}.
Notation Obj := (@TimerObj Data).
Notation W := (@Wheel Data).

Lemma obj_set_obj (s : W) p o q : obj (set_obj s p o) q = if q =? p then o else obj s q.
Proof. reflexivity. Qed.
Lemma bucket_set_obj (s : W) p o b : bucket (set_obj s p o) b = bucket s b.
Proof. reflexivity. Qed.
Lemma head_set_obj (s : W) p o : timer_head (set_obj s p o) = timer_head s.
Proof. reflexivity. Qed.
Lemma obj_set_bucket (s : W) b v q : obj (set_bucket s b v) q = obj s q.
Proof. reflexivity. Qed.
Lemma bucket_set_bucket (s : W) b v b' :
  bucket (set_bucket s b v) b' = if b' =? b then v else bucket s b'.
Proof. reflexivity. Qed.
Lemma head_set_bucket (s : W) b v : timer_head (set_bucket s b v) = timer_head s.
Proof. reflexivity. Qed.
Lemma obj_set_head (s : W) h q : obj (set_head s h) q = obj s q.
Proof. reflexivity. Qed.
Lemma bucket_set_head (s : W) h b : bucket (set_head s h) b = bucket s b.
Proof. reflexivity. Qed.
Lemma head_set_head (s : W) h : timer_head (set_head s h) = h.
Proof. reflexivity. Qed.
Lemma upd_at {A : Type} (f : Z -> A) i v j : upd f i v j = if j =? i then v else f j.
Proof. reflexivity. Qed.
Lemma timer_obj_obj (s : W) q : timer_obj s q = obj s q.
Proof. reflexivity. Qed.


Lemma obj_set_prev (s : W) p v q :
  obj (set_prev s p v) q = if q =? p then with_prev (obj s p) v else obj s q.
Proof. reflexivity. Qed.
Lemma obj_set_next (s : W) p v q :
  obj (set_next s p v) q = if q =? p then with_next (obj s p) v else obj s q.
Proof. reflexivity. Qed.
Lemma obj_set_used (s : W) p v q :
  obj (set_used s p v) q = if q =? p then with_used (obj s p) v else obj s q.
Proof. reflexivity. Qed.
Lemma obj_set_fire_count (s : W) p v q :
  obj (set_fire_count s p v) q = if q =? p then with_fire_count (obj s p) v else obj s q.
Proof. reflexivity. Qed.
Lemma obj_set_expire (s : W) p v q :
  obj (set_expire s p v) q = if q =? p then with_expire (obj s p) v else obj s q.
Proof. reflexivity. Qed.
Lemma bucket_set_prev (s : W) p v b : bucket (set_prev s p v) b = bucket s b.
Proof. reflexivity. Qed.
Lemma bucket_set_next (s : W) p v b : bucket (set_next s p v) b = bucket s b.
Proof. reflexivity. Qed.
Lemma bucket_set_used (s : W) p v b : bucket (set_used s p v) b = bucket s b.
Proof. reflexivity. Qed.
Lemma bucket_set_fire_count (s : W) p v b : bucket (set_fire_count s p v) b = bucket s b.
Proof. reflexivity. Qed.
Lemma bucket_set_expire (s : W) p v b : bucket (set_expire s p v) b = bucket s b.
Proof. reflexivity. Qed.
Lemma head_set_prev (s : W) p v : timer_head (set_prev s p v) = timer_head s.
Proof. reflexivity. Qed.
Lemma head_set_next (s : W) p v : timer_head (set_next s p v) = timer_head s.
Proof. reflexivity. Qed.
Lemma head_set_used (s : W) p v : timer_head (set_used s p v) = timer_head s.
Proof. reflexivity. Qed.
Lemma head_set_fire_count (s : W) p v : timer_head (set_fire_count s p v) = timer_head s.
Proof. reflexivity. Qed.
Lemma head_set_expire (s : W) p v : timer_head (set_expire s p v) = timer_head s.
Proof. reflexivity. Qed.
Lemma with_prev_prev (x : Obj) v : prev (with_prev x v) = v.
Proof. reflexivity. Qed.
Lemma with_prev_next (x : Obj) v : next (with_prev x v) = next x.
Proof. reflexivity. Qed.
Lemma with_next_prev (x : Obj) v : prev (with_next x v) = prev x.
Proof. reflexivity. Qed.
Lemma with_next_next (x : Obj) v : next (with_next x v) = v.
Proof. reflexivity. Qed.

End Basics.

Arguments obj : simpl never.
Arguments bucket : simpl never.
Arguments set_obj : simpl never.
Arguments set_bucket : simpl never.
Arguments set_head : simpl never.

Create HintDb wheel.
Create HintDb setters.
#[export] Hint Rewrite @obj_set_prev @obj_set_next @obj_set_used @obj_set_fire_count
  @obj_set_expire @bucket_set_prev @bucket_set_next @bucket_set_used @bucket_set_fire_count
  @bucket_set_expire @head_set_prev @head_set_next @head_set_used @head_set_fire_count
  @head_set_expire @obj_set_obj @bucket_set_obj @head_set_obj @obj_set_bucket
  @bucket_set_bucket @head_set_bucket @obj_set_head @bucket_set_head @head_set_head
  @timer_obj_obj @with_prev_prev @with_prev_next @with_next_prev @with_next_next : setters.
#[export] Hint Rewrite @obj_set_obj @bucket_set_obj @head_set_obj @obj_set_bucket
  @bucket_set_bucket @head_set_bucket @obj_set_head @bucket_set_head @head_set_head
  @timer_obj_obj @upd_at : wheel.

Ltac wunfold :=
  unfold set_prev, set_next, set_used, set_fire_count, set_expire,
    set_free_head, set_used_num, set_seq, set_cur,
    with_prev, with_next, with_used, with_fire_count, with_expire, payload in *.

Ltac wsimp := wunfold; autorewrite with wheel in *; cbn [prev next used interval_ms
  max_fire_count fire_count expire timer_id timer_data max_size data_size max_num
  used_num cur_bucket_pos cur_bucket_time free_head seq] in *.

Ltac zcase :=
  match goal with
  | |- context [?x =? ?y] => destruct (Z.eqb_spec x y)
  | H : context [?x =? ?y] |- _ => destruct (Z.eqb_spec x y)
  end.

Section ListLemmas.
Context {Data : Type}.
Notation Obj := (@TimerObj Data).
Notation W := (@Wheel Data).
Implicit Types (o : Z -> Obj) (s : W).

Lemma dll_cons o pv p l hd :
  dll o pv (p :: l) hd <-> hd = p /\ prev (o p) = pv /\ dll o p l (next (o p)).
Proof. reflexivity. Qed.

Lemma sll_cons o p l hd : sll o (p :: l) hd <-> hd = p /\ sll o l (next (o p)).
Proof. reflexivity. Qed.

Lemma dll_hd o pv l hd : dll o pv l hd -> hd = hd0 l.
Proof. destruct l; simpl; tauto. Qed.

Lemma dll_frame o o' pv l hd :
  (forall q, In q l -> prev (o' q) = prev (o q) /\ next (o' q) = next (o q)) ->
  dll o pv l hd -> dll o' pv l hd.
Proof.
  revert pv hd; induction l as [|p l IH]; simpl; intros pv hd Hf H; [exact H|].
  destruct H as (-> & Hp & Hl). destruct (Hf p (or_introl eq_refl)) as [E1 E2].
  split; [reflexivity|]. split; [congruence|]. rewrite E2.
  apply IH; [intros q Hq; apply Hf; right; exact Hq|exact Hl].
Qed.

Lemma dseg_frame o o' pv l hd nx :
  (forall q, In q l -> prev (o' q) = prev (o q) /\ next (o' q) = next (o q)) ->
  dseg o pv l hd nx -> dseg o' pv l hd nx.
Proof.
  revert pv hd; induction l as [|p l IH]; simpl; intros pv hd Hf H; [exact H|].
  destruct H as (-> & Hp & Hl). destruct (Hf p (or_introl eq_refl)) as [E1 E2].
  split; [reflexivity|]. split; [congruence|]. rewrite E2.
  apply IH; [intros q Hq; apply Hf; right; exact Hq|exact Hl].
Qed.

Lemma sll_frame o o' l hd :
  (forall q, In q l -> next (o' q) = next (o q)) -> sll o l hd -> sll o' l hd.
Proof.
  revert hd; induction l as [|p l IH]; simpl; intros hd Hf H; [exact H|].
  destruct H as (-> & Hl). split; [reflexivity|]. rewrite (Hf p (or_introl eq_refl)).
  apply IH; [intros q Hq; apply Hf; right; exact Hq|exact Hl].
Qed.

Lemma dll_app o pv l1 l2 hd :
  dll o pv (l1 ++ l2) hd <-> dseg o pv l1 hd (hd0 l2) /\ dll o (lastz pv l1) l2 (hd0 l2).
Proof.
  revert pv hd; induction l1 as [|p l1 IH]; simpl; intros pv hd.
  - split; [intros H; pose proof (dll_hd _ _ _ _ H); subst; tauto|intros [-> H]; exact H].
  - rewrite IH. tauto.
Qed.

Lemma dseg_snoc o pv l a hd nx :
  dseg o pv (l ++ [a]) hd nx <-> dseg o pv l hd a /\ prev (o a) = lastz pv l /\ next (o a) = nx.
Proof.
  revert pv hd; induction l as [|p l IH]; simpl; intros pv hd.
  - split; [intros (-> & H1 & H2); auto|intros (-> & H1 & H2); auto].
  - rewrite IH. tauto.
Qed.

Lemma lastz_snoc d l a : lastz d (l ++ [a]) = a.
Proof. revert d; induction l; simpl; auto. Qed.

Lemma lastz_in d l : l <> [] -> In (lastz d l) l.
Proof.
  intros Hl. destruct (exists_last Hl) as (l' & a & ->). rewrite lastz_snoc.
  apply in_or_app; right; left; reflexivity.
Qed.

Lemma sll_hd o l hd : sll o l hd -> hd = hd0 l.
Proof. destruct l; simpl; tauto. Qed.

Lemma dll_nil_iff o pv l : (forall q, In q l -> q <> 0) -> dll o pv l 0 -> l = [].
Proof.
  intros Hz H. destruct l as [|p l]; [reflexivity|]. simpl in H.
  destruct H as (Hp & _). exfalso. apply (Hz p); [left; reflexivity|congruence].
Qed.

(** Functionality: the list is determined by the head and the links. *)
Lemma dll_functional o pv l1 l2 hd :
  (forall q, In q l1 -> q <> 0) -> (forall q, In q l2 -> q <> 0) ->
  dll o pv l1 hd -> dll o pv l2 hd -> l1 = l2.
Proof.
  revert pv l2 hd; induction l1 as [|p l1 IH]; intros pv l2 hd Z1 Z2 H1 H2.
  - simpl in H1; subst. symmetry; apply (dll_nil_iff o pv); auto.
  - destruct l2 as [|q l2].
    + simpl in H2. subst. simpl in H1. destruct H1 as (Hp & _).
      exfalso; apply (Z1 p); [left|]; congruence.
    + simpl in H1, H2. destruct H1 as (-> & _ & H1). destruct H2 as (-> & _ & H2).
      f_equal. apply (IH q l2 (next (o q))); auto.
      * intros x Hx; apply Z1; right; exact Hx.
      * intros x Hx; apply Z2; right; exact Hx.
Qed.

Lemma sll_functional o l1 l2 hd :
  (forall q, In q l1 -> q <> 0) -> (forall q, In q l2 -> q <> 0) ->
  sll o l1 hd -> sll o l2 hd -> l1 = l2.
Proof.
  revert l2 hd; induction l1 as [|p l1 IH]; intros l2 hd Z1 Z2 H1 H2.
  - simpl in H1; subst. destruct l2 as [|q l2]; [reflexivity|].
    simpl in H2. destruct H2 as [Hq _]. exfalso; apply (Z2 q); [left|]; congruence.
  - destruct l2 as [|q l2].
    + simpl in H2, H1. subst. destruct H1 as [Hp _].
      exfalso; apply (Z1 p); [left|]; congruence.
    + simpl in H1, H2. destruct H1 as (-> & H1). destruct H2 as (-> & H2).
      f_equal. apply (IH l2 (next (o q))); auto.
      * intros x Hx; apply Z1; right; exact Hx.
      * intros x Hx; apply Z2; right; exact Hx.
Qed.

End ListLemmas.

Section Surgery.
Context {Data : Type}.
Notation Obj := (@TimerObj Data).
Notation W := (@Wheel Data).
Implicit Types (o : Z -> Obj) (s : W).

Lemma NoDup_app_disj (l1 l2 : list Z) x : NoDup (l1 ++ l2) -> In x l1 -> In x l2 -> False.
Proof.
  induction l1 as [|y l1 IH]; simpl; intros ND H1 H2; [exact H1|].
  inversion ND as [|? ? Hy ND']; subst. destruct H1 as [->|H1].
  - apply Hy. apply in_or_app; right; exact H2.
  - exact (IH ND' H1 H2).
Qed.

Lemma NoDup_mid (l1 l2 : list Z) p :
  NoDup (l1 ++ p :: l2) -> ~ In p (l1 ++ l2) /\ NoDup (l1 ++ l2).
Proof.
  intros ND. apply (Permutation_NoDup (Permutation_sym (Permutation_middle l1 l2 p))) in ND.
  inversion ND; subst; auto.
Qed.

Lemma payload_with_prev (x : Obj) v : payload (with_prev x v) = payload x.
Proof. destruct x; reflexivity. Qed.
Lemma payload_with_next (x : Obj) v : payload (with_next x v) = payload x.
Proof. destruct x; reflexivity. Qed.

Lemma payload_set_prev s x v q : payload (obj (set_prev s x v) q) = payload (obj s q).
Proof.
  unfold set_prev. rewrite obj_set_obj. zcase; [subst; apply payload_with_prev|reflexivity].
Qed.
Lemma payload_set_next s x v q : payload (obj (set_next s x v) q) = payload (obj s q).
Proof.
  unfold set_next. rewrite obj_set_obj. zcase; [subst; apply payload_with_next|reflexivity].
Qed.
Lemma payload_set_bucket s b v q : payload (obj (set_bucket s b v) q) = payload (obj s q).
Proof. reflexivity. Qed.

Ltac payload_tac :=
  intros; rewrite ?payload_set_prev, ?payload_set_next, ?payload_set_bucket; reflexivity.

Lemma unlink_canon_spec s b L1 p L2 :
  dll (timer_obj s) 0 (L1 ++ p :: L2) (bucket s b) ->
  NoDup (L1 ++ p :: L2) -> ~ In 0 (L1 ++ p :: L2) ->
  let s' := unlink_canon b p s in
  dll (timer_obj s') 0 (L1 ++ L2) (bucket s' b) /\
  (forall q, ~ In q (L1 ++ L2) -> obj s' q = obj s q) /\
  (forall q, payload (obj s' q) = payload (obj s q)) /\
  (forall b', b' <> b -> bucket s' b' = bucket s b') /\
  timer_head s' = timer_head s.
Proof.
  intros H ND N0 s'.
  destruct (NoDup_mid _ _ _ ND) as [NIp ND'].
  assert (NIp1 : ~ In p L1) by (intro; apply NIp; apply in_or_app; left; assumption).
  assert (NIp2 : ~ In p L2) by (intro; apply NIp; apply in_or_app; right; assumption).
  assert (N0' : forall q, In q (L1 ++ p :: L2) -> q <> 0) by (intros q Hq ->; contradiction).
  apply dll_app in H. destruct H as [Hseg Hp]. simpl in Hp. destruct Hp as (_ & Hpv & HL2).
  pose proof (dll_hd _ _ _ _ HL2) as Hnx.
  change (prev (timer_obj s p)) with (prev (obj s p)) in Hpv.
  change (next (timer_obj s p)) with (next (obj s p)) in Hnx.
  subst s'. unfold unlink_canon.
  destruct L1 as [|a L1'] using rev_ind.
  - (* [p] is the head of its bucket *)
    simpl in Hseg, Hpv. rewrite Hpv, Z.eqb_refl. simpl.
    destruct L2 as [|c L2']; simpl in Hnx |- *.
    + rewrite Hnx. unfold nz; simpl.
      repeat split; try payload_tac;
        intros; wsimp; rewrite ?Z.eqb_refl; try reflexivity.
      zcase; [contradiction|reflexivity].
    + rewrite Hnx. unfold nz. rewrite (proj2 (Z.eqb_neq c 0)) by (apply N0'; simpl; auto). simpl.
      simpl in HL2. destruct HL2 as (_ & Hcp & HL2').
      assert (Hc2 : ~ In c L2') by (simpl in ND; inversion ND as [|? ? _ ND2];
        inversion ND2; assumption).
      repeat split.
      * wsimp. rewrite !Z.eqb_refl. reflexivity.
      * wsimp. rewrite Z.eqb_refl. reflexivity.
      * wsimp. rewrite Z.eqb_refl. simpl.
        apply (dll_frame (timer_obj s)); [|exact HL2'].
        intros q Hq. wsimp. zcase; [subst; contradiction|auto].
      * intros q Hq. wsimp. zcase; [subst; exfalso; apply Hq; left; reflexivity|reflexivity].
      * payload_tac.
      * intros b' Hb'. wsimp. zcase; [contradiction|reflexivity].
  - (* [p] has a predecessor [a] *)
    rewrite lastz_snoc in Hpv. apply dseg_snoc in Hseg. destruct Hseg as (Hseg & Hapv & Hanx).
    assert (Ha0 : a <> 0) by (apply N0'; apply in_or_app; left; apply in_or_app; right; left; reflexivity).
    assert (Hap : a <> p) by (intros ->; apply NIp1; apply in_or_app; right; left; reflexivity).
    rewrite <- app_assoc in ND'. simpl in ND'.
    destruct (NoDup_mid _ _ _ ND') as [NIa _].
    assert (HaL1 : ~ In a L1') by (intro; apply NIa; apply in_or_app; left; assumption).
    assert (HaL2 : ~ In a L2) by (intro; apply NIa; apply in_or_app; right; assumption).
    rewrite (proj2 (Z.eqb_neq _ 0)) by (rewrite Hpv; exact Ha0). rewrite Hpv.
    assert (Hfr1 : forall q, In q L1' -> q <> a /\ q <> p /\ ~ In q L2).
    { intros q Hq. repeat split; [intros ->; contradiction|intros ->; apply NIp1;
        apply in_or_app; left; assumption|].
      intros Hq2. apply (NoDup_app_disj (L1' ++ [a]) (p :: L2) q ND);
        [apply in_or_app; left; assumption|right; assumption]. }
    destruct L2 as [|c L2']; simpl in Hnx |- *.
    + rewrite Hnx. unfold nz; simpl.
      repeat split.
      * apply (dll_app _ _ _ []). simpl. split; [|wsimp; reflexivity].
        apply dseg_snoc. split; [|split].
        -- apply (dseg_frame (timer_obj s)); [|exact Hseg].
           intros q Hq. destruct (Hfr1 q Hq) as (Hqa & _). wsimp. zcase; [contradiction|auto].
        -- wsimp. rewrite Z.eqb_refl. simpl. exact Hapv.
        -- wsimp. rewrite Z.eqb_refl. reflexivity.
      * intros q Hq. wsimp. zcase; [subst; exfalso; apply Hq; apply in_or_app; left;
          apply in_or_app; right; left; reflexivity|reflexivity].
      * payload_tac.
    + rewrite Hnx. simpl in HL2. destruct HL2 as (_ & Hcp & HL2').
      assert (Hc0 : c <> 0) by (apply N0'; apply in_or_app; right; right; left; reflexivity).
      unfold nz. rewrite (proj2 (Z.eqb_neq c 0)) by exact Hc0. simpl.
      assert (Hac : a <> c) by (intros ->; apply HaL2; left; reflexivity).
      simpl in ND'.
      assert (NDc : NoDup ((L1' ++ [a]) ++ c :: L2')) by (rewrite <- app_assoc; exact ND').
      destruct (NoDup_mid _ _ _ NDc) as [NIc _].
      assert (Hc2 : ~ In c L2') by (intro; apply NIc; apply in_or_app; right; assumption).
      assert (Hc1 : ~ In c L1') by (intro; apply NIc; apply in_or_app; left;
        apply in_or_app; left; assumption).
      assert (Hcp' : c <> p) by (intros ->; apply NIp2; left; reflexivity).
      repeat split.
      * apply (dll_app _ _ _ (c :: L2')). simpl. split.
        -- apply dseg_snoc. split; [|split].
           ++ apply (dseg_frame (timer_obj s)); [|exact Hseg].
              intros q Hq. destruct (Hfr1 q Hq) as (Hqa & _ & Hq2).
              assert (q <> c) by (intros ->; contradiction).
              wsimp. repeat zcase; try contradiction; auto.
           ++ wsimp. rewrite Z.eqb_refl. zcase; [contradiction|]. simpl. exact Hapv.
           ++ wsimp. rewrite Z.eqb_refl. zcase; [contradiction|]. reflexivity.
        -- rewrite lastz_snoc. split; [reflexivity|]. split.
           ++ wsimp. rewrite Z.eqb_refl. reflexivity.
           ++ wsimp. rewrite Z.eqb_refl. zcase; [congruence|]. simpl.
              apply (dll_frame (timer_obj s)); [|exact HL2'].
              intros q Hq. assert (q <> c) by (intros ->; contradiction).
              assert (q <> a) by (intros ->; apply HaL2; right; assumption).
              wsimp. repeat zcase; try contradiction; auto.
      * intros q Hq. assert (q <> c) by (intros ->; apply Hq; apply in_or_app; right; left; reflexivity).
        assert (q <> a) by (intros ->; apply Hq; apply in_or_app; left; apply in_or_app;
          right; left; reflexivity).
        wsimp. repeat zcase; try contradiction; reflexivity.
      * payload_tac.
Qed.


End Surgery.

Section Linked.
Context {Data : Type}.

Lemma flat_map_ext_in {A B : Type} (f g : A -> list B) (l : list A) :
  (forall a, In a l -> f a = g a) -> flat_map f l = flat_map g l.
Proof.
  induction l as [|a l IH]; simpl; intros H; [reflexivity|].
  rewrite H by (left; reflexivity). f_equal. apply IH. intros x Hx; apply H; right; exact Hx.
Qed.

Lemma in_buckets b : In b buckets <-> 0 <= b < kTimerBucketNum.
Proof.
  unfold buckets, kTimerBucketNum. rewrite in_map_iff. split.
  - intros (n & <- & Hn). apply in_seq in Hn. lia.
  - intros Hb. exists (Z.to_nat b). split; [lia|]. apply in_seq. lia.
Qed.

Lemma NoDup_buckets : NoDup buckets.
Proof.
  unfold buckets. apply NoDup_map_NoDup_ForallPairs; [|apply seq_NoDup].
  intros x y _ _ E. lia.
Qed.

Lemma linked_ext (Ls Ls' : Z -> list Z) :
  (forall b, 0 <= b < kTimerBucketNum -> Ls b = Ls' b) -> linked Ls = linked Ls'.
Proof.
  intros H. unfold linked. apply flat_map_ext_in. intros b Hb. apply H, in_buckets, Hb.
Qed.

Lemma in_linked (Ls : Z -> list Z) p :
  In p (linked Ls) <-> exists b, 0 <= b < kTimerBucketNum /\ In p (Ls b).
Proof.
  unfold linked. rewrite in_flat_map. split.
  - intros (b & Hb & Hp). exists b. rewrite <- in_buckets. auto.
  - intros (b & Hb & Hp). exists b. rewrite in_buckets. auto.
Qed.

Lemma updL_same (Ls : Z -> list Z) b l : updL Ls b l b = l.
Proof. unfold updL. rewrite Z.eqb_refl. reflexivity. Qed.

Lemma updL_other (Ls : Z -> list Z) b l c : c <> b -> updL Ls b l c = Ls c.
Proof. intros H. unfold updL. rewrite (proj2 (Z.eqb_neq c b) H). reflexivity. Qed.

Lemma flat_map_updL (Ls : Z -> list Z) b l (B : list Z) :
  NoDup B -> In b B ->
  Permutation (flat_map (updL Ls b l) B) (l ++ flat_map (updL Ls b []) B).
Proof.
  induction B as [|c B IH]; intros ND Hin; [destruct Hin|].
  inversion ND as [|? ? Hc ND']; subst. simpl.
  destruct Hin as [->|Hin].
  - rewrite !updL_same. simpl. apply Permutation_app_head.
    rewrite (flat_map_ext_in (updL Ls b l) (updL Ls b []) B); [reflexivity|].
    intros x Hx. rewrite !updL_other by (intros ->; contradiction). reflexivity.
  - assert (Hcb : c <> b) by (intros ->; contradiction).
    rewrite !(updL_other Ls b _ c Hcb).
    rewrite (IH ND' Hin). rewrite !app_assoc. apply Permutation_app_tail, Permutation_app_comm.
Qed.

Lemma linked_updL (Ls : Z -> list Z) b l :
  0 <= b < kTimerBucketNum ->
  Permutation (linked (updL Ls b l)) (l ++ linked (updL Ls b [])).
Proof.
  intros Hb. apply flat_map_updL; [apply NoDup_buckets|apply in_buckets, Hb].
Qed.

Lemma linked_split (Ls : Z -> list Z) b :
  0 <= b < kTimerBucketNum -> Permutation (linked Ls) (Ls b ++ linked (updL Ls b [])).
Proof.
  intros Hb. rewrite (linked_ext Ls (updL Ls b (Ls b))).
  - apply linked_updL, Hb.
  - intros c _. unfold updL. destruct (Z.eqb_spec c b); subst; reflexivity.
Qed.

End Linked.

Section WFBasics.
Context {Data : Type}.
Notation Obj := (@TimerObj Data).
Notation W := (@Wheel Data).
Implicit Types (s : W) (Ls : Z -> list Z) (F D : list Z).

Lemma NoDup_app_l (l1 l2 : list Z) : NoDup (l1 ++ l2) -> NoDup l1.
Proof.
  induction l1 as [|x l1 IH]; simpl; intros H; [constructor|].
  inversion H; subst. constructor; [|auto]. intro; apply H2, in_or_app; left; assumption.
Qed.

Lemma NoDup_app_r (l1 l2 : list Z) : NoDup (l1 ++ l2) -> NoDup l2.
Proof. induction l1 as [|x l1 IH]; simpl; intros H; [exact H|]. inversion H; auto. Qed.

(** The slots of the wheel, split at bucket [b]. *)
Lemma wfd_perm_b Ls F D b :
  0 <= b < kTimerBucketNum ->
  Permutation (linked Ls ++ F ++ D) (Ls b ++ linked (updL Ls b []) ++ F ++ D).
Proof.
  intros Hb. rewrite (app_assoc (Ls b)). apply Permutation_app_tail, linked_split, Hb.
Qed.

Lemma wfd_nodup_b s Ls F D b :
  WFD s Ls F D -> 0 <= b < kTimerBucketNum -> NoDup (Ls b ++ linked (updL Ls b []) ++ F ++ D).
Proof.
  intros H Hb. eapply Permutation_NoDup; [apply wfd_perm_b; exact Hb|apply (wf_nodup _ _ _ _ H)].
Qed.

Lemma wfd_in_b s Ls F D b p :
  WFD s Ls F D -> 0 <= b < kTimerBucketNum -> In p (Ls b) -> 1 <= p <= max_num (timer_head s).
Proof.
  intros H Hb Hp. apply (wf_range _ _ _ _ H). apply in_or_app; left.
  apply in_linked. exists b; auto.
Qed.

Lemma in_linked_other Ls b b' q :
  0 <= b' < kTimerBucketNum -> b' <> b -> In q (Ls b') -> In q (linked (updL Ls b [])).
Proof.
  intros Hb' Hne Hq. apply in_linked. exists b'. split; [exact Hb'|].
  rewrite updL_other by exact Hne. exact Hq.
Qed.

(** The number of slots is [max_num]. *)
Lemma nodup_range_length (l : list Z) (m : Z) :
  NoDup l -> (forall p, In p l <-> 1 <= p <= m) -> 0 <= m -> Z.of_nat (length l) = m.
Proof.
  intros ND Hr Hm.
  set (r := map Z.of_nat (List.seq 1 (Z.to_nat m))).
  assert (Hr' : forall p, In p r <-> 1 <= p <= m).
  { intros p. unfold r. rewrite in_map_iff. split.
    - intros (n & <- & Hn). apply in_seq in Hn. lia.
    - intros Hp. exists (Z.to_nat p). split; [lia|]. apply in_seq. lia. }
  assert (NDr : NoDup r).
  { unfold r. apply NoDup_map_NoDup_ForallPairs; [|apply seq_NoDup]. intros x y _ _ E; lia. }
  assert (L1 : (length l <= length r)%nat).
  { apply NoDup_incl_length; [exact ND|]. intros x Hx. apply Hr', Hr, Hx. }
  assert (L2 : (length r <= length l)%nat).
  { apply NoDup_incl_length; [exact NDr|]. intros x Hx. apply Hr, Hr', Hx. }
  unfold r in *. rewrite length_map, length_seq in L1, L2. lia.
Qed.

Lemma wfd_total s Ls F D :
  WFD s Ls F D -> Z.of_nat (length (linked Ls ++ F ++ D)) = max_num (timer_head s).
Proof.
  intros H. apply nodup_range_length; [apply (wf_nodup _ _ _ _ H)|apply (wf_range _ _ _ _ H)|].
  apply (wf_max _ _ _ _ H).
Qed.

Lemma wfd_not0 s Ls F D p : WFD s Ls F D -> In p (linked Ls ++ F ++ D) -> p <> 0.
Proof. intros H Hp. apply (wf_range _ _ _ _ H) in Hp. lia. Qed.

Lemma used_payload (x y : Obj) : payload x = payload y -> used x = used y.
Proof. intros E. apply (f_equal used) in E. exact E. Qed.
Lemma expire_payload (x y : Obj) : payload x = payload y -> expire x = expire y.
Proof. intros E. apply (f_equal expire) in E. exact E. Qed.
Lemma timer_id_payload (x y : Obj) : payload x = payload y -> timer_id x = timer_id y.
Proof. intros E. apply (f_equal timer_id) in E. exact E. Qed.

End WFBasics.

Section WFOps.
Context {Data : Type}.
Notation Obj := (@TimerObj Data).
Notation W := (@Wheel Data).
Implicit Types (s : W) (Ls : Z -> list Z) (F D : list Z).

Lemma perm_to_front (A B C : list Z) p : Permutation (A ++ B ++ p :: C) (p :: A ++ B ++ C).
Proof. rewrite !app_assoc. symmetry. apply Permutation_middle. Qed.

(** Unlinking slot [p] from the list of bucket [b]: [p] becomes detached. *)
Lemma wfd_unlink s Ls F D b L1 p L2 :
  WFD s Ls F D -> 0 <= b < kTimerBucketNum -> Ls b = L1 ++ p :: L2 ->
  let s' := unlink_canon b p s in
  WFD s' (updL Ls b (L1 ++ L2)) F (p :: D) /\
  (forall q, ~ In q (L1 ++ L2) -> obj s' q = obj s q) /\
  (forall q, payload (obj s' q) = payload (obj s q)) /\
  (forall b', b' <> b -> bucket s' b' = bucket s b') /\
  timer_head s' = timer_head s.
Proof.
  intros H Hb HL s'.
  pose proof (wfd_nodup_b _ _ _ _ _ H Hb) as NDb. rewrite HL in NDb.
  assert (NDL : NoDup (L1 ++ p :: L2)) by exact (NoDup_app_l _ _ NDb).
  assert (N0 : ~ In 0 (L1 ++ p :: L2)).
  { intros H0. apply (wfd_not0 _ _ _ _ 0 H); [|reflexivity]. apply in_or_app; left.
    apply in_linked. exists b. rewrite HL. auto. }
  pose proof (wf_buckets _ _ _ _ H b Hb) as Hd. rewrite HL in Hd.
  destruct (unlink_canon_spec s b L1 p L2 Hd NDL N0) as (Hd' & Hfr & Hpl & Hbk & Hhd).
  fold s' in Hd', Hfr, Hpl, Hbk, Hhd.
  set (R := linked (updL Ls b [])) in *.
  assert (Hout : forall q, In q (R ++ F ++ D) -> obj s' q = obj s q).
  { intros q Hq. apply Hfr. intros Hin. apply (NoDup_app_disj _ _ q NDb); [|exact Hq].
    apply in_app_or in Hin. apply in_or_app. simpl. tauto. }
  assert (P1 : Permutation (linked (updL Ls b (L1 ++ L2)) ++ F ++ p :: D)
                 (p :: (L1 ++ L2) ++ R ++ F ++ D)).
  { eapply perm_trans; [apply perm_to_front|]. apply perm_skip.
    rewrite (app_assoc (L1 ++ L2)). apply Permutation_app_tail. apply linked_updL, Hb. }
  assert (P2 : Permutation (linked Ls ++ F ++ D) (p :: (L1 ++ L2) ++ R ++ F ++ D)).
  { eapply perm_trans; [apply wfd_perm_b; exact Hb|]. rewrite HL.
    rewrite <- !app_assoc. simpl. symmetry. apply Permutation_middle. }
  assert (P : Permutation (linked (updL Ls b (L1 ++ L2)) ++ F ++ p :: D) (linked Ls ++ F ++ D))
    by (eapply perm_trans; [exact P1|symmetry; exact P2]).
  assert (Len : (length (linked (updL Ls b (L1 ++ L2))) + 1 = length (linked Ls))%nat).
  { rewrite (Permutation_length (linked_updL Ls b (L1 ++ L2) Hb)).
    rewrite (Permutation_length (linked_split Ls b Hb)). rewrite HL.
    rewrite !length_app. simpl. fold R. lia. }
  split; [|split; [|split; [|split]]]; try assumption.
  constructor.
  - intros b' Hb'. destruct (Z.eq_dec b' b) as [->|Hne].
    + rewrite updL_same. exact Hd'.
    + rewrite updL_other by exact Hne. rewrite Hbk by exact Hne.
      apply (dll_frame (timer_obj s)); [|apply (wf_buckets _ _ _ _ H b' Hb')].
      intros q Hq. pose proof (Hout q (in_or_app _ _ _ (or_introl
        (in_linked_other Ls b b' q Hb' Hne Hq)))) as E.
      unfold obj in E. rewrite E. split; reflexivity.
  - rewrite Hhd. apply (sll_frame (timer_obj s)); [|apply (wf_free _ _ _ _ H)].
    intros q Hq. pose proof (Hout q (in_or_app _ _ _ (or_intror (in_or_app _ _ _
      (or_introl Hq))))) as E. unfold obj in E. rewrite E. reflexivity.
  - eapply Permutation_NoDup; [symmetry; exact P|apply (wf_nodup _ _ _ _ H)].
  - intros q. rewrite Hhd, <- (wf_range _ _ _ _ H q). split; apply Permutation_in;
      [exact P|symmetry; exact P].
  - intros b' q Hb' Hq. rewrite (used_payload _ _ (Hpl q)), (expire_payload _ _ (Hpl q)),
      (timer_id_payload _ _ (Hpl q)).
    apply (wf_slot _ _ _ _ H b' q Hb'). destruct (Z.eq_dec b' b) as [->|Hne].
    + rewrite updL_same in Hq. rewrite HL. apply in_app_or in Hq. apply in_or_app. simpl. tauto.
    + rewrite updL_other in Hq by exact Hne. exact Hq.
  - rewrite Hhd, (wf_used_num _ _ _ _ H). rewrite !length_app. simpl. lia.
  - rewrite Hhd. apply (wf_max _ _ _ _ H).
  - rewrite Hhd. apply (wf_seq _ _ _ _ H).
  - rewrite Hhd. apply (wf_cur _ _ _ _ H).
Qed.

Lemma FreeNode_obj s p q :
  obj (FreeNode p s) q =
  if q =? p then with_used (with_prev (with_next (obj s p) (free_head (timer_head s))) 0) 0
  else obj s q.
Proof. unfold FreeNode. wsimp. repeat zcase; subst; try reflexivity; contradiction. Qed.

Lemma FreeNode_bucket s p b : bucket (FreeNode p s) b = bucket s b.
Proof. reflexivity. Qed.

Lemma FreeNode_head s p :
  timer_head (FreeNode p s) =
  let h := timer_head s in
  mkHead (max_size h) (data_size h) (max_num h) (u64 (used_num h - 1))
    (cur_bucket_pos h) (cur_bucket_time h) p (seq h).
Proof. reflexivity. Qed.

Lemma small_u64 x : 0 <= x < 2 ^ 64 -> u64 x = x.
Proof. intros H. unfold u64. apply Z.mod_small, H. Qed.

(** [FreeNode] on a detached slot puts it at the head of the free list. *)
Lemma wfd_free s Ls F D p :
  WFD s Ls F (p :: D) ->
  let s' := FreeNode p s in
  WFD s' Ls (p :: F) D /\ (forall q, q <> p -> obj s' q = obj s q) /\
  (forall b, bucket s' b = bucket s b).
Proof.
  intros H s'.
  pose proof (wf_nodup _ _ _ _ H) as ND.
  assert (Hp : forall q, In q (linked Ls ++ F) -> q <> p).
  { intros q Hq ->. apply (NoDup_app_disj (linked Ls ++ F) (p :: D) p); [|exact Hq|left; reflexivity].
    rewrite <- app_assoc. exact ND. }
  assert (Hfr : forall q, q <> p -> obj s' q = obj s q).
  { intros q Hq. unfold s'. rewrite FreeNode_obj. destruct (Z.eqb_spec q p); [contradiction|reflexivity]. }
  assert (P : Permutation (linked Ls ++ (p :: F) ++ D) (linked Ls ++ F ++ p :: D)).
  { simpl. eapply perm_trans; [symmetry; apply Permutation_middle|].
    symmetry. apply (perm_to_front (linked Ls) F D p). }
  pose proof (wfd_total _ _ _ _ H) as Tot.
  split; [|split; [exact Hfr|reflexivity]].
  constructor.
  - intros b Hb. apply (dll_frame (timer_obj s)); [|apply (wf_buckets _ _ _ _ H b Hb)].
    intros q Hq. assert (E := Hfr q (Hp q (in_or_app _ _ _ (or_introl (proj2 (in_linked _ _)
      (ex_intro _ b (conj Hb Hq))))))). unfold obj in E. rewrite E. split; reflexivity.
  - unfold s'. rewrite FreeNode_head, sll_cons. cbn [free_head]. split; [reflexivity|].
    change (timer_obj (FreeNode p s) p) with (obj (FreeNode p s) p).
    rewrite FreeNode_obj, Z.eqb_refl. wsimp.
    apply (sll_frame (timer_obj s)); [|apply (wf_free _ _ _ _ H)].
    intros q Hq. assert (E := Hfr q (Hp q (in_or_app _ _ _ (or_intror Hq)))).
    rewrite !timer_obj_obj. unfold s' in E. rewrite E. reflexivity.
  - eapply Permutation_NoDup; [symmetry; exact P|exact ND].
  - intros q. unfold s'. rewrite FreeNode_head. simpl. rewrite <- (wf_range _ _ _ _ H q).
    split; apply Permutation_in; [exact P|symmetry; exact P].
  - intros b q Hb Hq. rewrite Hfr. { apply (wf_slot _ _ _ _ H b q Hb Hq). }
    apply Hp, in_or_app; left. apply in_linked. exists b; auto.
  - unfold s'. rewrite FreeNode_head. simpl. rewrite (wf_used_num _ _ _ _ H).
    pose proof (wf_max _ _ _ _ H). rewrite !length_app in *. simpl in *. rewrite small_u64; lia.
  - unfold s'. rewrite FreeNode_head. apply (wf_max _ _ _ _ H).
  - unfold s'. rewrite FreeNode_head. apply (wf_seq _ _ _ _ H).
  - unfold s'. rewrite FreeNode_head. apply (wf_cur _ _ _ _ H).
Qed.

Lemma link_front_obj s b p q :
  p <> bucket s b ->
  obj (link_front b p s) q =
  if q =? p then with_next (with_prev (obj s p) 0) (bucket s b)
  else if nz (bucket s b) && (q =? bucket s b) then with_prev (obj s q) p
  else obj s q.
Proof.
  intros Hp. unfold link_front. autorewrite with setters. unfold nz.
  destruct (Z.eqb_spec (bucket s b) 0) as [E|E]; cbn [negb andb].
  - autorewrite with setters. rewrite Z.eqb_refl. destruct (q =? p); reflexivity.
  - autorewrite with setters. rewrite Z.eqb_refl.
    destruct (Z.eqb_spec q (bucket s b)) as [->|Hq].
    + rewrite (proj2 (Z.eqb_neq (bucket s b) p)) by congruence. reflexivity.
    + destruct (q =? p); reflexivity.
Qed.

Lemma link_front_bucket s b p b' :
  bucket (link_front b p s) b' = if b' =? b then p else bucket s b'.
Proof. unfold link_front. destruct (nz _); reflexivity. Qed.

Lemma link_front_head s b p : timer_head (link_front b p s) = timer_head s.
Proof. unfold link_front. destruct (nz _); reflexivity. Qed.

(** Linking a detached slot at the front of bucket [b]. *)
Lemma wfd_link s Ls F D b p :
  WFD s Ls F (p :: D) -> 0 <= b < kTimerBucketNum ->
  used (obj s p) <> 0 -> expire (obj s p) mod kTimerBucketNum = b ->
  id_pos (timer_id (obj s p)) = p ->
  let s' := link_front b p s in
  WFD s' (updL Ls b (p :: Ls b)) F D /\
  (forall q, payload (obj s' q) = payload (obj s q)) /\
  (forall q, q <> p -> ~ In q (Ls b) -> obj s' q = obj s q) /\
  (forall b', b' <> b -> bucket s' b' = bucket s b') /\ bucket s' b = p /\
  timer_head s' = timer_head s.
Proof.
  intros H Hb Hu He Hi s'.
  pose proof (wf_nodup _ _ _ _ H) as ND.
  assert (Hpl : forall q, In q (linked Ls ++ F) -> q <> p).
  { intros q Hq Eq. rewrite Eq in Hq.
    apply (NoDup_app_disj (linked Ls ++ F) (p :: D) p); [|exact Hq|left; reflexivity].
    rewrite <- app_assoc. exact ND. }
  assert (Hinb : forall q, In q (Ls b) -> In q (linked Ls ++ F)).
  { intros q Hq. apply in_or_app; left. apply in_linked. exists b; auto. }
  assert (HinF : forall q, In q F -> In q (linked Ls ++ F)).
  { intros q Hq. apply in_or_app; right; exact Hq. }
  pose proof (wf_buckets _ _ _ _ H b Hb) as Hd.
  pose proof (dll_hd _ _ _ _ Hd) as Hh.
  pose proof (wfd_nodup_b _ _ _ _ _ H Hb) as NDall.
  assert (Hp0 : p <> 0) by (apply (wfd_not0 _ _ _ _ p H); rewrite !in_app_iff; simpl; tauto).
  assert (Hph : p <> bucket s b).
  { rewrite Hh. destruct (Ls b) as [|h' rest] eqn:E; simpl; [exact Hp0|].
    intros Eq. apply (Hpl h'); [apply Hinb; rewrite ?E; left; reflexivity|congruence]. }
  assert (Hfr2 : forall q, q <> p -> q <> bucket s b -> obj s' q = obj s q).
  { intros q Hq Hqh. unfold s'. rewrite link_front_obj by exact Hph.
    rewrite (proj2 (Z.eqb_neq q p) Hq), (proj2 (Z.eqb_neq q (bucket s b)) Hqh).
    destruct (nz _); reflexivity. }
  assert (Hfr : forall q, q <> p -> ~ In q (Ls b) -> obj s' q = obj s q).
  { intros q Hq Hqb. destruct (Z.eq_dec q (bucket s b)) as [Eq|Eq]; [|apply Hfr2; assumption].
    unfold s'. rewrite link_front_obj by exact Hph. rewrite (proj2 (Z.eqb_neq q p) Hq).
    unfold nz. destruct (Z.eqb_spec (bucket s b) 0) as [E|E]; [reflexivity|].
    exfalso. apply Hqb. rewrite Eq, Hh in *. destruct (Ls b); [contradiction|left; reflexivity]. }
  assert (Hpay : forall q, payload (obj s' q) = payload (obj s q)).
  { intros q. unfold s'. rewrite link_front_obj by exact Hph.
    destruct (Z.eqb_spec q p) as [->|_]; [rewrite payload_with_next, payload_with_prev; reflexivity|].
    destruct (_ && _); [apply payload_with_prev|reflexivity]. }
  assert (Hhd : timer_head s' = timer_head s) by apply link_front_head.
  assert (Hout : forall q, In q (linked Ls ++ F) -> ~ In q (Ls b) -> obj s' q = obj s q).
  { intros q Hq Hqb. apply Hfr; [apply Hpl, Hq|exact Hqb]. }
  assert (P : Permutation (linked (updL Ls b (p :: Ls b)) ++ F ++ D) (linked Ls ++ F ++ p :: D)).
  { eapply perm_trans; [apply Permutation_app_tail, linked_updL, Hb|].
    eapply perm_trans; [|symmetry; apply perm_to_front]. simpl. apply perm_skip.
    rewrite <- app_assoc. symmetry. apply wfd_perm_b, Hb. }
  assert (Hdisj : forall b' q, 0 <= b' < kTimerBucketNum -> b' <> b -> In q (Ls b') -> ~ In q (Ls b)).
  { intros b' q Hb' Hne Hq Hqb. apply (NoDup_app_disj _ _ q NDall Hqb).
    apply in_or_app; left. apply (in_linked_other Ls b b' q Hb' Hne Hq). }
  assert (HdisjF : forall q, In q F -> ~ In q (Ls b)).
  { intros q Hq Hqb. apply (NoDup_app_disj _ _ q NDall Hqb).
    apply in_or_app; right; apply in_or_app; left; exact Hq. }
  split; [|split; [exact Hpay|split; [exact Hfr|split; [|split; [|exact Hhd]]]]].
  2: { intros b' Hb'. unfold s'. rewrite link_front_bucket, (proj2 (Z.eqb_neq b' b) Hb'). reflexivity. }
  2: { unfold s'. rewrite link_front_bucket, Z.eqb_refl. reflexivity. }
  constructor.
  - intros b' Hb'. destruct (Z.eq_dec b' b) as [->|Hne].
    + rewrite updL_same, dll_cons.
      assert (Ep : obj s' p = with_next (with_prev (obj s p) 0) (bucket s b))
        by (unfold s'; rewrite link_front_obj, Z.eqb_refl by exact Hph; reflexivity).
      assert (Eb : bucket s' b = p)
        by (unfold s'; rewrite link_front_bucket, Z.eqb_refl; reflexivity).
      change (bucket s' b = p /\ prev (obj s' p) = 0 /\
        dll (timer_obj s') p (Ls b) (next (obj s' p))).
      rewrite Eb, Ep, with_next_prev, with_prev_prev, with_next_next.
      split; [reflexivity|split; [reflexivity|]].
      pose proof (NoDup_app_l _ _ NDall) as NDb.
      destruct (Ls b) as [|h' rest] eqn:E; [exact Hd|].
      rewrite dll_cons in Hd |- *. destruct Hd as (Hh' & Hpv & Hrest).
      assert (Hh'0 : h' <> 0) by (apply (wfd_not0 _ _ _ _ h' H); rewrite app_assoc;
        apply in_or_app; left; apply Hinb; left; reflexivity).
      assert (Hh'p : h' <> p) by (apply Hpl, Hinb; rewrite ?E; left; reflexivity).
      assert (Eh : obj s' h' = with_prev (obj s h') p).
      { unfold s'. rewrite link_front_obj by exact Hph. rewrite (proj2 (Z.eqb_neq h' p) Hh'p).
        rewrite <- Hh'. unfold nz. rewrite (proj2 (Z.eqb_neq (bucket s b) 0)) by congruence.
        rewrite Z.eqb_refl. reflexivity. }
      split; [exact Hh'|]. rewrite !timer_obj_obj, Eh, with_prev_prev, with_prev_next.
      split; [reflexivity|].
      apply (dll_frame (timer_obj s)); [|exact Hrest].
      intros q Hq. rewrite !timer_obj_obj.
      apply NoDup_cons_iff in NDb. destruct NDb as [Hnin _].
      rewrite Hfr2; [split; reflexivity| |].
      * apply Hpl, Hinb. rewrite ?E. right; exact Hq.
      * rewrite Hh'. intros Eq. rewrite Eq in Hq. contradiction.
    + rewrite updL_other by exact Hne. unfold s' at 2. rewrite link_front_bucket,
        (proj2 (Z.eqb_neq b' b) Hne).
      apply (dll_frame (timer_obj s)); [|apply (wf_buckets _ _ _ _ H b' Hb')].
      intros q Hq. rewrite !timer_obj_obj, Hout; [split; reflexivity| |].
      * apply in_or_app; left. apply in_linked. exists b'; auto.
      * exact (Hdisj b' q Hb' Hne Hq).
  - rewrite Hhd. apply (sll_frame (timer_obj s)); [|apply (wf_free _ _ _ _ H)].
    intros q Hq. rewrite !timer_obj_obj, Hout; [reflexivity|apply HinF, Hq|apply HdisjF, Hq].
  - eapply Permutation_NoDup; [symmetry; exact P|exact ND].
  - intros q. rewrite Hhd, <- (wf_range _ _ _ _ H q).
    split; apply Permutation_in; [exact P|symmetry; exact P].
  - intros b' q Hb' Hq.
    rewrite (used_payload _ _ (Hpay q)), (expire_payload _ _ (Hpay q)),
      (timer_id_payload _ _ (Hpay q)).
    destruct (Z.eq_dec b' b) as [->|Hne].
    + rewrite updL_same in Hq. destruct Hq as [<-|Hq]; [auto|].
      apply (wf_slot _ _ _ _ H b q Hb Hq).
    + rewrite updL_other in Hq by exact Hne. apply (wf_slot _ _ _ _ H b' q Hb' Hq).
  - rewrite Hhd, (wf_used_num _ _ _ _ H).
    pose proof (Permutation_length P) as LP. rewrite !length_app in *. simpl in *. lia.
  - rewrite Hhd. apply (wf_max _ _ _ _ H).
  - rewrite Hhd. apply (wf_seq _ _ _ _ H).
  - rewrite Hhd. apply (wf_cur _ _ _ _ H).
Qed.

(** Rewriting a slot without moving it. *)
Lemma wfd_set_obj s Ls F D q o' :
  WFD s Ls F D ->
  (In q (linked Ls ++ F) -> prev o' = prev (obj s q) /\ next o' = next (obj s q)) ->
  (forall b, 0 <= b < kTimerBucketNum -> In q (Ls b) ->
     used o' <> 0 /\ expire o' mod kTimerBucketNum = b /\ id_pos (timer_id o') = q) ->
  WFD (set_obj s q o') Ls F D.
Proof.
  intros H Hl Hs.
  assert (Hfr : forall x, In x (linked Ls ++ F) ->
            prev (obj (set_obj s q o') x) = prev (obj s x) /\
            next (obj (set_obj s q o') x) = next (obj s x)).
  { intros x Hx. rewrite obj_set_obj. destruct (Z.eqb_spec x q) as [->|_]; [auto|auto]. }
  constructor.
  - intros b Hb. apply (dll_frame (timer_obj s)); [|apply (wf_buckets _ _ _ _ H b Hb)].
    intros x Hx. apply Hfr. apply in_or_app; left. apply in_linked. exists b; auto.
  - apply (sll_frame (timer_obj s)); [|apply (wf_free _ _ _ _ H)].
    intros x Hx. apply Hfr. apply in_or_app; right; exact Hx.
  - apply (wf_nodup _ _ _ _ H).
  - apply (wf_range _ _ _ _ H).
  - intros b x Hb Hx. rewrite obj_set_obj. destruct (Z.eqb_spec x q) as [->|_].
    + apply Hs; assumption.
    + apply (wf_slot _ _ _ _ H b x Hb Hx).
  - apply (wf_used_num _ _ _ _ H).
  - apply (wf_max _ _ _ _ H).
  - apply (wf_seq _ _ _ _ H).
  - apply (wf_cur _ _ _ _ H).
Qed.

(** Rewriting the head without touching the slot accounting. *)
Lemma wfd_set_head s Ls F D h :
  WFD s Ls F D ->
  max_num h = max_num (timer_head s) -> used_num h = used_num (timer_head s) ->
  free_head h = free_head (timer_head s) -> 0 <= seq h < 2 ^ 32 ->
  cur_bucket_pos h = cur_bucket_time h mod kTimerBucketNum ->
  WFD (set_head s h) Ls F D.
Proof.
  intros H E1 E2 E3 E4 E5. constructor.
  - apply (wf_buckets _ _ _ _ H).
  - rewrite head_set_head, E3. apply (wf_free _ _ _ _ H).
  - apply (wf_nodup _ _ _ _ H).
  - intros p. rewrite head_set_head, E1. apply (wf_range _ _ _ _ H).
  - apply (wf_slot _ _ _ _ H).
  - rewrite head_set_head, E2. apply (wf_used_num _ _ _ _ H).
  - rewrite head_set_head, E1. apply (wf_max _ _ _ _ H).
  - rewrite head_set_head. exact E4.
  - rewrite head_set_head. exact E5.
Qed.

Lemma wfd_set_seq s Ls F D v :
  WFD s Ls F D -> 0 <= v < 2 ^ 32 -> WFD (set_seq s v) Ls F D.
Proof.
  intros H Hv. apply wfd_set_head; try reflexivity; [exact H|exact Hv|apply (wf_cur _ _ _ _ H)].
Qed.

Lemma wfd_set_cur s Ls F D now : WFD s Ls F D -> WFD (set_cur s now) Ls F D.
Proof.
  intros H. apply wfd_set_head; try reflexivity; [exact H|apply (wf_seq _ _ _ _ H)].
Qed.

Lemma AllocNode_some s :
  nz (free_head (timer_head s)) && (used_num (timer_head s) <=? max_num (timer_head s)) = true ->
  let p := free_head (timer_head s) in
  fst (AllocNode s) = p /\
  (forall q, obj (snd (AllocNode s)) q =
     if q =? p then with_next (with_prev (with_used (obj s p) 1) 0) 0 else obj s q) /\
  (forall b, bucket (snd (AllocNode s)) b = bucket s b) /\
  timer_head (snd (AllocNode s)) =
    let h := timer_head s in
    mkHead (max_size h) (data_size h) (max_num h) (u64 (used_num h + 1))
      (cur_bucket_pos h) (cur_bucket_time h) (next (obj s p)) (seq h).
Proof.
  intros G p. unfold AllocNode. rewrite G. cbn [fst snd].
  split; [reflexivity|split; [|split; reflexivity]].
  intros q. unfold set_free_head, set_used_num. autorewrite with setters.
  fold p. rewrite !Z.eqb_refl. destruct (Z.eqb_spec q p); reflexivity.
Qed.

Lemma AllocNode_none s :
  free_head (timer_head s) = 0 -> AllocNode s = (0, s).
Proof. intros E. unfold AllocNode. rewrite E. reflexivity. Qed.

(** [AllocNode] takes the head of the free list. *)
Lemma wfd_alloc s Ls F D p :
  WFD s Ls (p :: F) D ->
  let s' := snd (AllocNode s) in
  fst (AllocNode s) = p /\ WFD s' Ls F (p :: D) /\
  obj s' p = with_next (with_prev (with_used (obj s p) 1) 0) 0 /\
  (forall q, q <> p -> obj s' q = obj s q) /\ (forall b, bucket s' b = bucket s b) /\
  max_num (timer_head s') = max_num (timer_head s) /\ seq (timer_head s') = seq (timer_head s) /\
  cur_bucket_pos (timer_head s') = cur_bucket_pos (timer_head s) /\
  cur_bucket_time (timer_head s') = cur_bucket_time (timer_head s).
Proof.
  intros H s'.
  pose proof (wf_free _ _ _ _ H) as Hf. rewrite sll_cons in Hf. destruct Hf as (Hfh & HF).
  pose proof (wf_nodup _ _ _ _ H) as ND.
  pose proof (wfd_total _ _ _ _ H) as Tot.
  pose proof (wf_used_num _ _ _ _ H) as Hun.
  pose proof (wf_max _ _ _ _ H) as Hmax.
  assert (Hp0 : p <> 0) by (apply (wfd_not0 _ _ _ _ p H); rewrite !in_app_iff; simpl; tauto).
  assert (G : nz (free_head (timer_head s)) && (used_num (timer_head s) <=? max_num (timer_head s)) = true).
  { rewrite Hfh. unfold nz. rewrite (proj2 (Z.eqb_neq p 0) Hp0). simpl.
    apply Z.leb_le. rewrite Hun, <- Tot. rewrite !length_app. simpl. lia. }
  destruct (AllocNode_some s G) as (Hfst & Hobj & Hbk & Hhd).
  rewrite Hfh in Hfst, Hobj, Hhd.
  assert (NDp : NoDup (p :: linked Ls ++ F ++ D))
    by (eapply Permutation_NoDup; [symmetry; apply Permutation_middle|exact ND]).
  assert (Hp : forall q, In q (linked Ls ++ F ++ D) -> q <> p).
  { intros q Hq Eq. rewrite Eq in Hq. apply NoDup_cons_iff in NDp. tauto. }
  assert (Hfr : forall q, In q (linked Ls ++ F ++ D) -> obj s' q = obj s q).
  { intros q Hq. unfold s'. rewrite Hobj, (proj2 (Z.eqb_neq q p) (Hp q Hq)). reflexivity. }
  assert (P : Permutation (linked Ls ++ F ++ p :: D) (linked Ls ++ (p :: F) ++ D)).
  { eapply perm_trans; [apply perm_to_front|]. apply Permutation_middle. }
  split; [exact Hfst|]. split; [|split; [|split; [|split; [exact Hbk|]]]].
  - constructor.
    + intros b Hb. replace (bucket s' b) with (bucket s b) by (symmetry; apply Hbk).
      apply (dll_frame (timer_obj s)); [|apply (wf_buckets _ _ _ _ H b Hb)].
      intros q Hq. rewrite !timer_obj_obj, Hfr; [split; reflexivity|].
      apply in_or_app; left. apply in_linked. exists b; auto.
    + unfold s'. rewrite Hhd. cbn [free_head]. apply (sll_frame (timer_obj s)); [|exact HF].
      intros q Hq. rewrite !timer_obj_obj. fold s'. rewrite Hfr; [reflexivity|].
      rewrite !in_app_iff. tauto.
    + eapply Permutation_NoDup; [symmetry; exact P|exact ND].
    + intros q. unfold s'. rewrite Hhd. cbn [max_num]. rewrite <- (wf_range _ _ _ _ H q).
      split; apply Permutation_in; [exact P|symmetry; exact P].
    + intros b q Hb Hq. rewrite Hfr; [apply (wf_slot _ _ _ _ H b q Hb Hq)|].
      apply in_or_app; left. apply in_linked. exists b; auto.
    + unfold s'. rewrite Hhd. cbn [used_num]. rewrite Hun.
      rewrite !length_app in *. simpl in *. rewrite small_u64; lia.
    + unfold s'. rewrite Hhd. exact Hmax.
    + unfold s'. rewrite Hhd. apply (wf_seq _ _ _ _ H).
    + unfold s'. rewrite Hhd. apply (wf_cur _ _ _ _ H).
  - unfold s'. rewrite Hobj, Z.eqb_refl. reflexivity.
  - intros q Hq. unfold s'. rewrite Hobj, (proj2 (Z.eqb_neq q p) Hq). reflexivity.
  - unfold s'. rewrite Hhd. cbn. repeat split; reflexivity.
Qed.

Lemma id_pos_mk_id p q : 0 <= p < 2 ^ 32 -> id_pos (mk_id p q) = p.
Proof.
  intros Hp. unfold id_pos, mk_id, u32. rewrite Z.mod_add by lia.
  rewrite Z.mod_mod by lia. apply Z.mod_small, Hp.
Qed.

Lemma id_seq_mk_id p q : id_seq (mk_id p q) = u32 q.
Proof.
  unfold id_seq, mk_id, u32. rewrite Z.div_add by lia.
  rewrite Z.div_small; [lia|]. apply Z.mod_pos_bound. lia.
Qed.

Lemma mk_id_inj p q1 q2 : mk_id p q1 = mk_id p q2 -> u32 q1 = u32 q2.
Proof. intros E. rewrite <- (id_seq_mk_id p q1), <- (id_seq_mk_id p q2), E. reflexivity. Qed.

Lemma u32_range x : 0 <= u32 x < 2 ^ 32.
Proof. unfold u32. apply Z.mod_pos_bound. lia. Qed.

Lemma wfd_bucket_not s Ls F D b p :
  WFD s Ls F D -> 0 <= b < kTimerBucketNum -> p <> 0 -> ~ In p (Ls b) -> p <> bucket s b.
Proof.
  intros H Hb Hp Hn E. pose proof (dll_hd _ _ _ _ (wf_buckets _ _ _ _ H b Hb)) as Eh.
  destruct (Ls b) as [|x l]; cbn in Eh; [congruence|]. apply Hn. left. congruence.
Qed.

(** A successful or failed [AddTimer] on a well-formed wheel, valid arguments. *)
Lemma AddTimer_spec s Ls F now I k d :
  WF s Ls F -> 0 < I <= kTimerBucketNum -> 0 <= k ->
  cur_bucket_time (timer_head s) <= now + I ->
  match F with
  | [] => AddTimer now I k d s = (AddNoNode, s)
  | p :: F' =>
      let b := (now + I) mod kTimerBucketNum in
      let sq := seq (timer_head s) in
      exists s', AddTimer now I k d s = (AddOk (mk_id p sq), s') /\
        WF s' (updL Ls b (p :: Ls b)) F' /\
        obj s' p = mkObj 0 (bucket s b) 1 I k 0 (now + I) (mk_id p sq) d /\
        (forall q, q <> p -> payload (obj s' q) = payload (obj s q)) /\
        (forall q, q <> p -> ~ In q (Ls b) -> obj s' q = obj s q) /\
        bucket s' b = p /\ (forall b', b' <> b -> bucket s' b' = bucket s b') /\
        seq (timer_head s') = u32 (sq + 1) /\
        max_num (timer_head s') = max_num (timer_head s) /\
        cur_bucket_pos (timer_head s') = cur_bucket_pos (timer_head s) /\
        cur_bucket_time (timer_head s') = cur_bucket_time (timer_head s)
  end.
Proof.
  intros H HI Hk Hc.
  assert (Args : (I <=? 0) || (kTimerBucketNum <? I) || (k <? 0) = false).
  { apply orb_false_intro; [apply orb_false_intro|]; [apply Z.leb_gt|apply Z.ltb_ge|apply Z.ltb_ge]; lia. }
  assert (Clk : now + I <? cur_bucket_time (timer_head s) = false) by (apply Z.ltb_ge; lia).
  unfold AddTimer. rewrite Args, Clk.
  destruct F as [|p F'].
  - pose proof (wf_free _ _ _ _ H) as Hf. simpl in Hf.
    rewrite (AllocNode_none s Hf). reflexivity.
  - set (b := (now + I) mod kTimerBucketNum). set (sq := seq (timer_head s)).
    destruct (wfd_alloc s Ls F' [] p H) as (Hfst & H1 & Hp1 & Hfr1 & Hbk1 & Hm1 & Hs1 & Hcp1 & Hct1).
    destruct (AllocNode s) as [pos s1] eqn:EA. cbn [fst snd] in *. subst pos.
    assert (Hp0 : p <> 0) by (apply (wfd_not0 _ _ _ _ p H1); rewrite !in_app_iff; simpl; tauto).
    assert (Hpr : 1 <= p <= max_num (timer_head s1))
      by (apply (wf_range _ _ _ _ H1); rewrite !in_app_iff; simpl; tauto).
    assert (Hmax : 0 <= max_num (timer_head s1) < 2 ^ 32) by apply (wf_max _ _ _ _ H1).
    rewrite (proj2 (Z.eqb_neq p 0) Hp0). rewrite Hs1. fold sq.
    assert (Hb : 0 <= b < kTimerBucketNum) by (apply Z.mod_pos_bound; unfold kTimerBucketNum; lia).
    set (s2 := set_seq s1 (u32 (sq + 1))).
    assert (H2 : WFD s2 Ls F' [p]) by (apply wfd_set_seq; [exact H1|apply u32_range]).
    set (o := obj s2 p).
    set (s3 := set_obj s2 p (mkObj (prev o) (next o) (used o) I k 0 (now + I) (mk_id p sq) d)).
    pose proof (wf_nodup _ _ _ _ H2) as ND2.
    assert (Hpn : ~ In p (linked Ls ++ F')).
    { intros Hin. apply (NoDup_app_disj (linked Ls ++ F') [p] p); [|exact Hin|left; reflexivity].
      rewrite <- app_assoc. exact ND2. }
    assert (H3 : WFD s3 Ls F' [p]).
    { apply wfd_set_obj; [exact H2|intros Hin; contradiction|].
      intros b' Hb' Hin. exfalso. apply Hpn. apply in_or_app; left. apply in_linked. exists b'; auto. }
    assert (Eo3 : obj s3 p = mkObj 0 0 1 I k 0 (now + I) (mk_id p sq) d).
    { unfold s3. rewrite obj_set_obj, Z.eqb_refl. unfold o, s2. unfold set_seq.
      rewrite obj_set_head, Hp1. reflexivity. }
    assert (Hi3 : id_pos (timer_id (obj s3 p)) = p).
    { rewrite Eo3. apply id_pos_mk_id. lia. }
    destruct (wfd_link s3 Ls F' [] b p H3 Hb) as (H4 & Hpay4 & Hfr4 & Hbk4 & Hb4 & Hhd4).
    + rewrite Eo3. cbn. lia.
    + rewrite Eo3. reflexivity.
    + exact Hi3.
    + set (s4 := link_front b p s3) in *.
      assert (Hbk3 : forall b', bucket s3 b' = bucket s b') by (intros b'; apply Hbk1).
      assert (Eo4 : obj s4 p = mkObj 0 (bucket s b) 1 I k 0 (now + I) (mk_id p sq) d).
      { unfold s4. rewrite link_front_obj, Z.eqb_refl; [|rewrite Hbk3; apply (wfd_bucket_not s Ls _ _ b p H Hb Hp0);
          intros Hin; apply Hpn, in_or_app; left; apply in_linked; exists b; auto].
        rewrite Eo3, Hbk3. reflexivity. }
      assert (Hfr3 : forall q, q <> p -> obj s3 q = obj s q).
      { intros q Hq. unfold s3. rewrite obj_set_obj, (proj2 (Z.eqb_neq q p) Hq).
        unfold s2, set_seq. rewrite obj_set_head. apply Hfr1, Hq. }
      assert (Hh3 : timer_head s3 = timer_head s2) by (unfold s3; apply head_set_obj).
      exists s4. rewrite Eo4. cbn [timer_id]. split; [reflexivity|]. split; [exact H4|].
      split; [reflexivity|]. split.
      { intros q Hq. rewrite Hpay4, Hfr3 by exact Hq. reflexivity. }
      split.
      { intros q Hq Hin. rewrite Hfr4, Hfr3 by assumption. reflexivity. }
      split; [exact Hb4|]. split.
      { intros b' Hb'. rewrite Hbk4, Hbk3 by exact Hb'. reflexivity. }
      rewrite Hhd4, Hh3. unfold s2, set_seq. rewrite head_set_head. cbn.
      repeat split; assumption.
Qed.

End WFOps.

Section DelOps.
Context {Data : Type}.
Notation Obj := (@TimerObj Data).
Notation W := (@Wheel Data).
Implicit Types (s : W) (o : Z -> Obj) (Ls : Z -> list Z) (F D : list Z).

(** The first slot of [L] whose handle is [id], or 0. *)
Definition find_pos (o : Z -> Obj) (id : Z) (L : list Z) : Z :=
  match find (fun q => timer_id (o q) =? id) L with Some q => q | None => 0 end.

Lemma find_in_bucket_dll fuel o id pv L hd :
  dll o pv L hd -> ~ In 0 L -> (length L < fuel)%nat ->
  find_in_bucket fuel o id hd = Some (find_pos o id L).
Proof.
  unfold find_pos. revert fuel pv hd. induction L as [|p L IH]; intros fuel pv hd H N0 Hf.
  - destruct fuel as [|f]; [cbn in Hf; lia|]. cbn in H |- *. subst. reflexivity.
  - destruct fuel as [|f]; [cbn in Hf; lia|]. apply dll_cons in H. destruct H as (-> & _ & H).
    cbn [find_in_bucket find].
    rewrite (proj2 (Z.eqb_neq p 0)) by (intros E; apply N0; left; congruence).
    destruct (timer_id (o p) =? id); [reflexivity|].
    apply (IH f p); [exact H|intros Hin; apply N0; right; exact Hin|cbn in Hf; lia].
Qed.

Lemma find_pos_in o id L :
  (forall q, In q L -> timer_id (o q) = id -> q = id_pos id) ->
  find_pos o id L = if existsb (fun q => q =? id_pos id) L && (timer_id (o (id_pos id)) =? id)
                    then id_pos id else 0.
Proof.
  unfold find_pos. induction L as [|p L IH]; intros Hq; [reflexivity|].
  cbn [find existsb].
  destruct (Z.eqb_spec (timer_id (o p)) id) as [E|E].
  - pose proof (Hq p (or_introl eq_refl) E) as Ep. subst p.
    rewrite Z.eqb_refl, E, Z.eqb_refl. reflexivity.
  - rewrite IH by (intros q Hin; apply Hq; right; exact Hin).
    destruct (Z.eqb_spec p (id_pos id)) as [->|Hne]; cbn [orb].
    + rewrite (proj2 (Z.eqb_neq _ _) E). destruct (existsb _ _); reflexivity.
    + reflexivity.
Qed.

Lemma dll_prev_neq o L1 p L2 hd :
  dll o 0 (L1 ++ p :: L2) hd -> NoDup (L1 ++ p :: L2) -> ~ In 0 (L1 ++ p :: L2) ->
  prev (o p) <> p.
Proof.
  intros H ND N0. apply dll_app in H. destruct H as [_ Hp]. cbn in Hp.
  destruct Hp as (_ & Hpv & _). rewrite Hpv. destruct (NoDup_mid _ _ _ ND) as [NIp _].
  destruct L1 as [|a L1].
  - cbn. intros E. apply N0. rewrite <- E. left. reflexivity.
  - intros E. apply NIp. apply in_or_app. left. rewrite <- E. apply lastz_in. discriminate.
Qed.

Lemma unlink_del_canon s b p :
  prev (obj s p) <> p -> unlink_del b p s = unlink_canon b p s.
Proof.
  intros Hp. unfold unlink_del, unlink_canon.
  destruct (prev (obj s p) =? 0).
  - rewrite obj_set_bucket. reflexivity.
  - rewrite obj_set_next, (proj2 (Z.eqb_neq p _) (not_eq_sym Hp)). reflexivity.
Qed.

Lemma unlink_update_canon s i p :
  prev (obj s p) <> p ->
  unlink_update i p s = unlink_canon ((cur_bucket_pos (timer_head s) + i) mod kTimerBucketNum) p s.
Proof.
  intros Hp. unfold unlink_update, unlink_canon, nz.
  destruct (Z.eqb_spec (prev (obj s p)) 0) as [E|E]; cbn [negb].
  - rewrite obj_set_bucket, E. reflexivity.
  - rewrite obj_set_next, (proj2 (Z.eqb_neq p _) (not_eq_sym Hp)). reflexivity.
Qed.

Lemma length_bucket_linked Ls b :
  0 <= b < kTimerBucketNum -> (length (Ls b) <= length (linked Ls))%nat.
Proof.
  intros Hb. rewrite (Permutation_length (linked_split Ls b Hb)), length_app. lia.
Qed.

Lemma wf_find s Ls F D fuel id b :
  WFD s Ls F D -> 0 <= b < kTimerBucketNum -> (length (linked Ls) < fuel)%nat ->
  find_in_bucket fuel (timer_obj s) id (bucket s b) =
  Some (if existsb (fun q => q =? id_pos id) (Ls b) && (timer_id (obj s (id_pos id)) =? id)
        then id_pos id else 0).
Proof.
  intros H Hb Hf.
  rewrite (find_in_bucket_dll fuel _ id 0 (Ls b)).
  - f_equal. apply find_pos_in. intros q Hq Eq.
    destruct (wf_slot _ _ _ _ H b q Hb Hq) as (_ & _ & Hi). rewrite Eq in Hi. congruence.
  - apply (wf_buckets _ _ _ _ H b Hb).
  - intros Hin. apply (wfd_not0 _ _ _ _ 0 H); [|reflexivity].
    apply in_or_app; left. apply in_linked. exists b; auto.
  - pose proof (length_bucket_linked Ls b Hb). lia.
Qed.

(** [DelTimer] of the handle of a linked slot. *)
Lemma DelTimer_linked s Ls F fuel id b L1 L2 :
  WF s Ls F -> (length (linked Ls) < fuel)%nat -> 0 <= b < kTimerBucketNum ->
  Ls b = L1 ++ id_pos id :: L2 -> timer_id (obj s (id_pos id)) = id ->
  let p := id_pos id in
  let s' := FreeNode p (unlink_canon b p s) in
  DelTimer fuel id s = Some (DelOk, s') /\ WF s' (updL Ls b (L1 ++ L2)) (p :: F) /\
  (forall q, q <> p -> payload (obj s' q) = payload (obj s q)) /\
  used (obj s' p) = 0 /\ timer_head s' = timer_head (FreeNode p s).
Proof.
  intros H Hf Hb EL Ht p s'. fold p in Ht, EL.
  assert (Hin : In p (Ls b)) by (rewrite EL; apply in_or_app; right; left; reflexivity).
  destruct (wf_slot _ _ _ _ H b p Hb Hin) as (Hu & He & _).
  pose proof (wfd_in_b _ _ _ _ _ _ H Hb Hin) as Hr.
  pose proof (wf_nodup _ _ _ _ H) as ND.
  assert (NDb : NoDup (Ls b)) by (apply NoDup_app_l in ND; apply (NoDup_app_l _ _ (wfd_nodup_b _ _ _ _ _ H Hb))).
  assert (N0 : ~ In 0 (Ls b)).
  { intros H0. apply (wfd_not0 _ _ _ _ 0 H); [|reflexivity].
    apply in_or_app; left. apply in_linked. exists b; auto. }
  pose proof (wf_buckets _ _ _ _ H b Hb) as Hd.
  rewrite EL in NDb, N0, Hd.
  pose proof (dll_prev_neq _ _ _ _ _ Hd NDb N0) as Hpv.
  destruct (wfd_unlink s Ls F [] b L1 p L2 H Hb EL) as (H1 & Hfr1 & Hpl1 & Hbk1 & Hh1).
  destruct (wfd_free _ _ _ _ p H1) as (H2 & Hfr2 & Hbk2).
  unfold DelTimer. fold p.
  rewrite (proj2 (Z.eqb_neq p 0)) by lia. rewrite (proj2 (Z.ltb_ge _ _)) by lia. cbn [orb].
  rewrite Ht, Z.eqb_refl, (proj2 (Z.eqb_neq _ 0) Hu). cbn [negb orb]. rewrite He.
  rewrite (wf_find _ _ _ _ fuel id b H Hb Hf). fold p.
  assert (Ex : existsb (fun q => q =? p) (Ls b) = true)
    by (apply existsb_exists; exists p; split; [exact Hin|apply Z.eqb_refl]).
  rewrite Ex, Ht, Z.eqb_refl. cbn [andb]. unfold nz. rewrite (proj2 (Z.eqb_neq p 0)) by lia.
  cbn [negb]. rewrite unlink_del_canon by exact Hpv.
  split; [reflexivity|]. split; [exact H2|]. split.
  - intros q Hq. unfold s'. rewrite Hfr2 by exact Hq. apply Hpl1.
  - unfold s'. rewrite FreeNode_obj, Z.eqb_refl. split; [reflexivity|].
    rewrite !FreeNode_head, Hh1. reflexivity.
Qed.

(** [DelTimer] of a handle that names no linked slot. *)
Lemma DelTimer_unlinked s Ls F fuel id :
  WF s Ls F -> (length (linked Ls) < fuel)%nat ->
  ~ (In (id_pos id) (linked Ls) /\ timer_id (obj s (id_pos id)) = id) ->
  exists r, r <> DelOk /\ DelTimer fuel id s = Some (r, s).
Proof.
  intros H Hf Hn. unfold DelTimer.
  destruct ((id_pos id =? 0) || (max_num (timer_head s) <? id_pos id)).
  { exists DelBadPos. split; [discriminate|reflexivity]. }
  destruct (negb (timer_id (obj s (id_pos id)) =? id) || (used (obj s (id_pos id)) =? 0)) eqn:E.
  { exists DelBadId. split; [discriminate|reflexivity]. }
  apply orb_false_elim in E. destruct E as [E1 _]. apply negb_false_iff, Z.eqb_eq in E1.
  set (b := expire (obj s (id_pos id)) mod kTimerBucketNum).
  assert (Hb : 0 <= b < kTimerBucketNum) by (apply Z.mod_pos_bound; unfold kTimerBucketNum; lia).
  rewrite (wf_find _ _ _ _ fuel id b H Hb Hf).
  destruct (existsb (fun q => q =? id_pos id) (Ls b)) eqn:Ex.
  - exfalso. apply existsb_exists in Ex. destruct Ex as (q & Hq & Eq). apply Z.eqb_eq in Eq.
    subst q. apply Hn. split; [apply in_linked; exists b; auto|exact E1].
  - exists DelNotFound. split; [discriminate|reflexivity].
Qed.

Lemma find_in_bucket_mono f f' o id h v :
  find_in_bucket f o id h = Some v -> (f <= f')%nat -> find_in_bucket f' o id h = Some v.
Proof.
  revert f' h. induction f as [|f IH]; intros f' h E Hle; [discriminate|].
  destruct f' as [|f']; [lia|]. cbn [find_in_bucket] in E |- *.
  destruct (h =? 0); [exact E|]. destruct (timer_id (o h) =? id); [exact E|].
  apply IH; [exact E|lia].
Qed.

Lemma DelTimer_mono fuel fuel' id s x :
  DelTimer fuel id s = Some x -> (fuel <= fuel')%nat -> DelTimer fuel' id s = Some x.
Proof.
  intros E Hle. unfold DelTimer in *.
  destruct (_ || _); [exact E|]. destruct (_ || _); [exact E|].
  destruct (find_in_bucket fuel _ _ _) as [v|] eqn:Ef; [|discriminate].
  rewrite (find_in_bucket_mono _ _ _ _ _ _ Ef Hle). exact E.
Qed.

(** A failed [DelTimer] returns the state it was given. *)
Lemma DelTimer_not_ok fuel id s r s' :
  DelTimer fuel id s = Some (r, s') -> r <> DelOk -> s' = s.
Proof.
  unfold DelTimer. intros E Hr.
  destruct (_ || _); [injection E as <- <-; reflexivity|].
  destruct (_ || _); [injection E as <- <-; reflexivity|].
  destruct (find_in_bucket _ _ _ _) as [v|]; [|discriminate].
  destruct (nz v); injection E as <- <-; [contradiction|reflexivity].
Qed.

(** A [DelOk] on a well-formed wheel frees a linked slot. *)
Lemma DelTimer_ok s Ls F fuel id s' :
  WF s Ls F -> DelTimer fuel id s = Some (DelOk, s') ->
  exists b L1 L2, 0 <= b < kTimerBucketNum /\ Ls b = L1 ++ id_pos id :: L2 /\
    timer_id (obj s (id_pos id)) = id /\
    s' = FreeNode (id_pos id) (unlink_canon b (id_pos id) s) /\
    WF s' (updL Ls b (L1 ++ L2)) (id_pos id :: F) /\
    (forall q, q <> id_pos id -> payload (obj s' q) = payload (obj s q)) /\
    used (obj s' (id_pos id)) = 0.
Proof.
  intros H E.
  set (fuel' := Nat.max fuel (S (length (linked Ls)))).
  apply (DelTimer_mono _ fuel') in E; [|lia].
  destruct (In_dec Z.eq_dec (id_pos id) (linked Ls)) as [Hin|Hin].
  2:{ destruct (DelTimer_unlinked s Ls F fuel' id H ltac:(lia) ltac:(tauto)) as (r & Hr & E').
      rewrite E in E'. injection E' as Er _; subst r; contradiction. }
  destruct (Z.eq_dec (timer_id (obj s (id_pos id))) id) as [Ht|Ht].
  2:{ destruct (DelTimer_unlinked s Ls F fuel' id H ltac:(lia) ltac:(tauto)) as (r & Hr & E').
      rewrite E in E'. injection E' as Er _; subst r; contradiction. }
  apply in_linked in Hin. destruct Hin as (b & Hb & Hin). apply in_split in Hin.
  destruct Hin as (L1 & L2 & EL).
  destruct (DelTimer_linked s Ls F fuel' id b L1 L2 H ltac:(lia) Hb EL Ht) as (E' & H' & Hpl & Hu & _).
  rewrite E in E'. injection E' as ->. exists b, L1, L2.
  split; [exact Hb|]. split; [exact EL|]. split; [exact Ht|]. split; [reflexivity|].
  split; [exact H'|]. split; [exact Hpl|exact Hu].
Qed.

Lemma AddTimer_not_ok now I k d s r s' :
  AddTimer now I k d s = (r, s') -> (forall h, r <> AddOk h) -> s' = s.
Proof.
  unfold AddTimer. intros E Hr.
  destruct (_ || _ || _); [injection E as <- <-; reflexivity|].
  destruct (_ <? _); [injection E as <- <-; reflexivity|].
  destruct (nz (free_head (timer_head s)) && (used_num (timer_head s) <=? max_num (timer_head s)))
    eqn:G.
  - destruct (AllocNode_some s G) as (Hfst & _).
    destruct (AllocNode s) as [pos s1]. cbn in Hfst. subst pos.
    apply andb_prop in G. destruct G as [G _]. unfold nz in G. apply negb_true_iff in G.
    rewrite G in E. injection E as <- _. exfalso. eapply Hr. reflexivity.
  - assert (EA : AllocNode s = (0, s)) by (unfold AllocNode; rewrite G; reflexivity).
    rewrite EA in E. injection E as <- <-. reflexivity.
Qed.

Lemma AddTimer_ok_args now I k d s h s' :
  AddTimer now I k d s = (AddOk h, s') ->
  0 < I <= kTimerBucketNum /\ 0 <= k /\ cur_bucket_time (timer_head s) <= now + I.
Proof.
  unfold AddTimer. intros E.
  destruct ((I <=? 0) || (kTimerBucketNum <? I) || (k <? 0)) eqn:V; [discriminate|].
  destruct (now + I <? cur_bucket_time (timer_head s)) eqn:C; [discriminate|].
  apply orb_false_elim in V. destruct V as [V V3]. apply orb_false_elim in V. destruct V as [V1 V2].
  apply Z.leb_gt in V1. apply Z.ltb_ge in V2, V3, C. lia.
Qed.

(** An [AddOk] on a well-formed wheel takes the first free slot. *)
Lemma AddTimer_ok s Ls F now I k d h s' :
  WF s Ls F -> AddTimer now I k d s = (AddOk h, s') ->
  exists p F', F = p :: F' /\ h = mk_id p (seq (timer_head s)) /\
    let b := (now + I) mod kTimerBucketNum in
    WF s' (updL Ls b (p :: Ls b)) F' /\
    obj s' p = mkObj 0 (bucket s b) 1 I k 0 (now + I) h d /\
    (forall q, q <> p -> payload (obj s' q) = payload (obj s q)) /\
    bucket s' b = p /\ (forall b', b' <> b -> bucket s' b' = bucket s b') /\
    used_num (timer_head s') = used_num (timer_head s) + 1 /\
    max_num (timer_head s') = max_num (timer_head s) /\
    cur_bucket_time (timer_head s') = cur_bucket_time (timer_head s).
Proof.
  intros H E. destruct (AddTimer_ok_args _ _ _ _ _ _ _ E) as (HI & Hk & Hc).
  pose proof (AddTimer_spec s Ls F now I k d H HI Hk Hc) as Hs.
  destruct F as [|p F']; [rewrite E in Hs; discriminate|].
  destruct Hs as (s1 & E1 & H1 & Ho & Hpl & _ & Hb & Hb' & _ & Hm & _ & Hct).
  rewrite E in E1. injection E1 as -> <-. exists p, F'. split; [reflexivity|]. split; [reflexivity|].
  split; [exact H1|]. split; [exact Ho|]. split; [exact Hpl|]. split; [exact Hb|].
  split; [exact Hb'|]. split; [|split; [exact Hm|exact Hct]].
  rewrite (wf_used_num _ _ _ _ H1), (wf_used_num _ _ _ _ H), !app_nil_r.
  set (b := (now + I) mod kTimerBucketNum).
  assert (Hbb : 0 <= b < kTimerBucketNum) by (apply Z.mod_pos_bound; unfold kTimerBucketNum; lia).
  rewrite (Permutation_length (linked_updL Ls b (p :: Ls b) Hbb)),
    (Permutation_length (linked_split Ls b Hbb)), !length_app. cbn [length]. lia.
Qed.

(** On a well-formed wheel, no free slot means [used_num = max_num]. *)
Lemma wf_full s Ls F :
  WF s Ls F -> (used_num (timer_head s) = max_num (timer_head s) <-> F = []) /\
               used_num (timer_head s) <= max_num (timer_head s).
Proof.
  intros H. pose proof (wfd_total _ _ _ _ H) as Et. pose proof (wf_used_num _ _ _ _ H) as Eu.
  rewrite !length_app in Et, Eu. cbn in Et, Eu. split; [|lia].
  split; [|intros ->; cbn in Et; lia]. intros E. destruct F; [reflexivity|cbn in Et; lia].
Qed.

Lemma WF_ext s Ls Ls' F :
  (forall b, 0 <= b < kTimerBucketNum -> Ls b = Ls' b) -> WF s Ls F -> WF s Ls' F.
Proof.
  intros E H. pose proof (linked_ext Ls Ls' E) as El. constructor.
  - intros b Hb. rewrite <- (E b Hb). apply (wf_buckets _ _ _ _ H b Hb).
  - apply (wf_free _ _ _ _ H).
  - rewrite <- El. apply (wf_nodup _ _ _ _ H).
  - rewrite <- El. apply (wf_range _ _ _ _ H).
  - intros b q Hb. rewrite <- (E b Hb). apply (wf_slot _ _ _ _ H b q Hb).
  - rewrite <- El. apply (wf_used_num _ _ _ _ H).
  - apply (wf_max _ _ _ _ H).
  - apply (wf_seq _ _ _ _ H).
  - apply (wf_cur _ _ _ _ H).
Qed.

End DelOps.

Section InitOps.
Context {Data : Type}.
Notation Obj := (@TimerObj Data).
Notation W := (@Wheel Data).
Implicit Types (s : W) (Ls : Z -> list Z) (F D : list Z).

Lemma thread_free_frame k s :
  (forall b, bucket (thread_free k s) b = bucket s b) /\
  max_num (timer_head (thread_free k s)) = max_num (timer_head s) /\
  used_num (timer_head (thread_free k s)) = used_num (timer_head s) /\
  seq (timer_head (thread_free k s)) = seq (timer_head s) /\
  cur_bucket_pos (timer_head (thread_free k s)) = cur_bucket_pos (timer_head s) /\
  cur_bucket_time (timer_head (thread_free k s)) = cur_bucket_time (timer_head s).
Proof.
  revert s; induction k as [|k IH]; intros s; [repeat split; reflexivity|].
  cbn [thread_free].
  match goal with |- context [thread_free k ?s'] =>
    destruct (IH s') as (E1 & E2 & E3 & E4 & E5 & E6) end.
  rewrite E2, E3, E4, E5, E6. split; [intros b; rewrite E1|];
    unfold set_free_head; autorewrite with setters; cbn; repeat split; reflexivity.
Qed.

Lemma thread_free_sll k s L :
  sll (timer_obj s) L (free_head (timer_head s)) ->
  (forall q, In q L -> Z.of_nat k < q) ->
  sll (timer_obj (thread_free k s)) (map Z.of_nat (List.seq 1 k) ++ L)
      (free_head (timer_head (thread_free k s))).
Proof.
  revert s L; induction k as [|k IH]; intros s L H Hq; [exact H|].
  cbn [thread_free]. set (i := Z.of_nat (S k)).
  set (s2 := set_free_head (set_next (set_prev s i 0) i
               (free_head (timer_head (set_prev s i 0)))) i).
  replace (map Z.of_nat (List.seq 1 (S k)) ++ L) with (map Z.of_nat (List.seq 1 k) ++ i :: L).
  2:{ rewrite seq_S, map_app, <- app_assoc. reflexivity. }
  apply IH.
  - assert (H2 : free_head (timer_head s2) = i)
      by (unfold s2, set_free_head; autorewrite with setters; reflexivity).
    assert (E2 : next (obj s2 i) = free_head (timer_head s)).
    { unfold s2, set_free_head. autorewrite with setters. rewrite !Z.eqb_refl. reflexivity. }
    assert (F2 : forall q, q <> i -> next (obj s2 q) = next (obj s q)).
    { intros q Hne. unfold s2, set_free_head. autorewrite with setters.
      rewrite (proj2 (Z.eqb_neq q i) Hne). reflexivity. }
    rewrite sll_cons. split; [exact H2|].
    change (sll (timer_obj s2) L (next (obj s2 i))). rewrite E2.
    apply (sll_frame (timer_obj s)); [|exact H].
    intros q Hin. pose proof (Hq q Hin). apply F2. unfold i. lia.
  - intros q [<-|Hin]; [unfold i; lia|]. pose proof (Hq q Hin). lia.
Qed.

Lemma in_seq_Z n p : In p (map Z.of_nat (List.seq 1 n)) <-> 1 <= p <= Z.of_nat n.
Proof.
  rewrite in_map_iff. split.
  - intros (x & <- & Hx). apply in_seq in Hx. lia.
  - intros Hp. exists (Z.to_nat p). split; [lia|]. apply in_seq. lia.
Qed.

(** A fresh [Init] that succeeds yields a well-formed, empty wheel whose free
    list is [1, 2, ..., timer_num]. *)
Lemma Init_wf mem ms ds os n now_sec time_now s :
  Init mem ms ds os n now_sec time_now = Some s -> 0 <= n < 2 ^ 32 ->
  WF s (fun _ => []) (map Z.of_nat (List.seq 1 (Z.to_nat n))).
Proof.
  unfold Init. destruct (ms <? TotalMemSize os n); [discriminate|]. intros E Hn.
  injection E as <-.
  set (s0 := mkWheel _ _ _).
  destruct (thread_free_frame (Z.to_nat n) s0) as (Hb & Hm & Hu & Hs & Hp & Ht).
  assert (Hl : linked (fun _ : Z => @nil Z) = []).
  { unfold linked. induction buckets; [reflexivity|exact IHl]. }
  constructor.
  - intros b Hb'. cbn. rewrite Hb. unfold bucket, s0. cbn.
    rewrite (proj2 (Z.leb_le 0 b)), (proj2 (Z.ltb_lt b _)) by lia. reflexivity.
  - rewrite <- (app_nil_r (map Z.of_nat (List.seq 1 (Z.to_nat n)))). apply thread_free_sll; [reflexivity|intros q []].
  - rewrite Hl, app_nil_r. apply NoDup_map_NoDup_ForallPairs; [intros x y _ _ E; lia|apply seq_NoDup].
  - intros q. rewrite Hl, app_nil_r. cbn [app]. rewrite in_seq_Z, Hm. cbn. lia.
  - intros b q _ [].
  - rewrite Hl, Hu. reflexivity.
  - rewrite Hm. cbn. lia.
  - rewrite Hs. cbn. apply u32_range.
  - rewrite Hp, Ht. reflexivity.
Qed.

End InitOps.

(** ** [Update] with callbacks that leave the wheel alone. *)
Section Walk.
Context {Data : Type}.
Notation Obj := (@TimerObj Data).
Notation W := (@Wheel Data).
Implicit Types (s : W) (o : Z -> Obj) (x y : Obj) (Ls : Z -> list Z) (F D : list Z).

(** A callback that does not touch the wheel. *)
Definition cb_id (id : Z) (d : Data) (s : W) : W := s.

(** The test of [retire_or_rearm], on a slot whose [fire_count] is [fc]. *)
Definition retires (x : Obj) (fc : Z) : bool :=
  nz (max_fire_count x) && (max_fire_count x <=? fc).

(** A slot after it fired at time [now] (up to its links). *)
Definition fire_obj (now : Z) (x : Obj) : Obj :=
  let x1 := with_fire_count x (fire_count x + 1) in
  if retires x (fire_count x + 1) then with_used x1 0 else with_expire x1 (now + interval_ms x).

(** The bucket lists and free list after slot [q] of bucket [b] fired. *)
Definition fire_lists (now : Z) o (b q : Z) (LF : (Z -> list Z) * list Z)
  : (Z -> list Z) * list Z :=
  let Ls1 := updL (fst LF) b (remove Z.eq_dec q (fst LF b)) in
  if retires (o q) (fire_count (o q) + 1) then (Ls1, q :: snd LF)
  else let c := (now + interval_ms (o q)) mod kTimerBucketNum in (updL Ls1 c (q :: Ls1 c), snd LF).

Definition walk_lists (now : Z) o (b : Z) (R : list Z) (LF : (Z -> list Z) * list Z)
  : (Z -> list Z) * list Z :=
  fold_left (fun acc q => fire_lists now o b q acc) R LF.

(** Abstract state of a wheel for callbacks that leave it alone: the slots
    (up to their links), the bucket lists and the free list. *)
Definition Abs : Type := ((Z -> Obj) * ((Z -> list Z) * list Z))%type.

(** The walk of bucket [b] at time [now] on the abstract state, with its trace. *)
Definition walk_abs (now b : Z) (A : Abs) : Abs * list Z :=
  let o := fst A in let R := fst (snd A) b in
  ((fun q => if in_dec Z.eq_dec q R then fire_obj now (o q) else o q,
    walk_lists now o b R (snd A)), map (fun q => timer_id (o q)) R).

(** The walks of buckets [c + i], ..., [c + i + k - 1] (mod [kTimerBucketNum]). *)
Fixpoint ticks_abs (now c i : Z) (k : nat) (A : Abs) : Abs * list Z :=
  match k with
  | O => (A, [])
  | S k' =>
      let r1 := walk_abs now ((c + i) mod kTimerBucketNum) A in
      let r2 := ticks_abs now c (i + 1) k' (fst r1) in
      (fst r2, snd r1 ++ snd r2)
  end.

(** Equality of abstract states up to the links of the slots. *)
Definition abs_eq (A A' : Abs) : Prop :=
  (forall q, payload (fst A q) = payload (fst A' q)) /\ snd A = snd A'.

(** The clock and counters that a bucket walk leaves alone. *)
Definition clock_eq (h h' : TimerHead) : Prop :=
  max_num h' = max_num h /\ seq h' = seq h /\
  cur_bucket_pos h' = cur_bucket_pos h /\ cur_bucket_time h' = cur_bucket_time h.

Lemma clock_eq_refl h : clock_eq h h.
Proof. repeat split. Qed.

Lemma clock_eq_trans h1 h2 h3 : clock_eq h1 h2 -> clock_eq h2 h3 -> clock_eq h1 h3.
Proof. unfold clock_eq. intros (? & ? & ? & ?) (? & ? & ? & ?). repeat split; congruence. Qed.

Ltac obj_eq := intros; repeat match goal with x : Obj |- _ => destruct x end;
  unfold payload, with_prev, with_next, with_used, with_expire, with_fire_count in *;
  cbn in *; repeat match goal with E : mkObj _ _ _ _ _ _ _ _ _ = mkObj _ _ _ _ _ _ _ _ _ |- _ =>
    injection E as; subst end; reflexivity.

Lemma payload_with_used x y v : payload x = payload y -> payload (with_used x v) = payload (with_used y v).
Proof. obj_eq. Qed.

Lemma payload_with_expire x y v :
  payload x = payload y -> payload (with_expire x v) = payload (with_expire y v).
Proof. obj_eq. Qed.

Lemma payload_freed (x : Obj) a : payload (with_used (with_prev (with_next x a) 0) 0) = payload (with_used x 0).
Proof. obj_eq. Qed.

Lemma payload_fire_obj now x y : payload x = payload y -> payload (fire_obj now x) = payload (fire_obj now y).
Proof.
  intros E. unfold fire_obj, retires.
  assert (Em : max_fire_count x = max_fire_count y) by (apply (f_equal max_fire_count) in E; exact E).
  assert (Ef : fire_count x = fire_count y) by (apply (f_equal fire_count) in E; exact E).
  assert (Ei : interval_ms x = interval_ms y) by (apply (f_equal interval_ms) in E; exact E).
  rewrite Em, Ef, Ei. destruct (_ && _); revert E; obj_eq.
Qed.

Lemma fire_lists_ext now o o' b q LF :
  payload (o q) = payload (o' q) -> fire_lists now o b q LF = fire_lists now o' b q LF.
Proof.
  intros E. unfold fire_lists, retires.
  assert (Em : max_fire_count (o q) = max_fire_count (o' q)) by (apply (f_equal max_fire_count) in E; exact E).
  assert (Ef : fire_count (o q) = fire_count (o' q)) by (apply (f_equal fire_count) in E; exact E).
  assert (Ei : interval_ms (o q) = interval_ms (o' q)) by (apply (f_equal interval_ms) in E; exact E).
  rewrite Em, Ef, Ei. reflexivity.
Qed.

Lemma walk_lists_ext now o o' b R LF :
  (forall q, In q R -> payload (o q) = payload (o' q)) ->
  walk_lists now o b R LF = walk_lists now o' b R LF.
Proof.
  unfold walk_lists. revert LF. induction R as [|q R IH]; intros LF H; [reflexivity|].
  cbn [fold_left]. rewrite (fire_lists_ext now o o' b q LF) by (apply H; left; reflexivity).
  apply IH. intros x Hx. apply H. right. exact Hx.
Qed.

Lemma remove_mid (X R : list Z) p :
  ~ In p X -> ~ In p R -> remove Z.eq_dec p (X ++ p :: R) = X ++ R.
Proof.
  intros H1 H2. rewrite remove_app. cbn. destruct (Z.eq_dec p p) as [_|C]; [|congruence].
  rewrite !notin_remove by assumption. reflexivity.
Qed.

(** One pass of the walk body on the slot [p] of bucket [b]. *)
Lemma fire_step s Ls F b i now X p R :
  WF s Ls F -> 0 <= b < kTimerBucketNum ->
  b = (cur_bucket_pos (timer_head s) + i) mod kTimerBucketNum ->
  Ls b = X ++ p :: R ->
  let LF := fire_lists now (obj s) b p (Ls, F) in
  exists s', walk_body cb_id i now p s = (s', timer_id (obj s p), hd0 R) /\
    WF s' (fst LF) (snd LF) /\ (exists X', fst LF b = X' ++ R) /\
    (forall q, payload (obj s' q) = payload (if q =? p then fire_obj now (obj s p) else obj s q)) /\
    clock_eq (timer_head s) (timer_head s').
Proof.
  intros H Hb Hbi EL LF.
  assert (Hin : In p (Ls b)) by (rewrite EL; apply in_or_app; right; left; reflexivity).
  destruct (wf_slot _ _ _ _ H b p Hb Hin) as (Hu & He & Hi).
  pose proof (wf_nodup _ _ _ _ H) as ND.
  assert (NDb : NoDup (Ls b)) by apply (NoDup_app_l _ _ (wfd_nodup_b _ _ _ _ _ H Hb)).
  assert (N0 : ~ In 0 (Ls b)).
  { intros H0. apply (wfd_not0 _ _ _ _ 0 H); [|reflexivity].
    apply in_or_app; left. apply in_linked. exists b; auto. }
  pose proof (wf_buckets _ _ _ _ H b Hb) as Hd.
  rewrite EL in NDb, N0, Hd.
  pose proof (dll_prev_neq _ _ _ _ _ Hd NDb N0) as Hpv.
  destruct (NoDup_mid _ _ _ NDb) as [NIp _].
  assert (NIX : ~ In p X) by (intros C; apply NIp, in_or_app; left; exact C).
  assert (NIR : ~ In p R) by (intros C; apply NIp, in_or_app; right; exact C).
  assert (Hnx : next (obj s p) = hd0 R).
  { apply dll_app in Hd. destruct Hd as [_ Hd]. cbn in Hd. destruct Hd as (_ & _ & Hd).
    apply dll_hd in Hd. exact Hd. }
  set (o := obj s p) in *.
  set (s1 := set_fire_count s p (fire_count o + 1)).
  assert (E1p : obj s1 p = with_fire_count o (fire_count o + 1))
    by (unfold s1; rewrite obj_set_fire_count, Z.eqb_refl; reflexivity).
  assert (E1q : forall q, q <> p -> obj s1 q = obj s q)
    by (intros q Hq; unfold s1; rewrite obj_set_fire_count, (proj2 (Z.eqb_neq q p) Hq); reflexivity).
  assert (Hh1 : timer_head s1 = timer_head s) by apply head_set_fire_count.
  assert (H1 : WF s1 Ls F).
  { unfold s1, set_fire_count. apply wfd_set_obj; [exact H|intros _; split; reflexivity|].
    intros b' Hb' Hin'. exact (wf_slot _ _ _ _ H b' p Hb' Hin'). }
  assert (Ewb : walk_body cb_id i now p s =
                (retire_or_rearm now p (unlink_canon b p s1), timer_id o, hd0 R)).
  { unfold walk_body, cb_id. cbv zeta. fold o. change (set_fire_count s p (fire_count o + 1)) with s1.
    rewrite E1p. unfold nz at 1. cbn [with_fire_count used next timer_id].
    rewrite (proj2 (Z.eqb_neq _ 0) Hu). cbn [negb]. rewrite Hnx.
    rewrite unlink_update_canon by (rewrite E1p; exact Hpv). rewrite Hh1, <- Hbi. reflexivity. }
  destruct (wfd_unlink s1 Ls F [] b X p R H1 Hb EL) as (H3 & Hfr3 & Hpl3 & Hbk3 & Hh3).
  set (s3 := unlink_canon b p s1) in *.
  set (L1 := updL Ls b (X ++ R)) in *.
  assert (Ep3 : payload (obj s3 p) = payload (with_fire_count o (fire_count o + 1)))
    by (rewrite Hpl3, E1p; reflexivity).
  assert (Eq3 : forall q, q <> p -> payload (obj s3 q) = payload (obj s q))
    by (intros q Hq; rewrite Hpl3, E1q by exact Hq; reflexivity).
  assert (Em3 : max_fire_count (obj s3 p) = max_fire_count o) by (apply (f_equal max_fire_count) in Ep3; exact Ep3).
  assert (Ef3 : fire_count (obj s3 p) = fire_count o + 1) by (apply (f_equal fire_count) in Ep3; exact Ep3).
  assert (Ei3 : interval_ms (obj s3 p) = interval_ms o) by (apply (f_equal interval_ms) in Ep3; exact Ep3).
  unfold LF, fire_lists in *. cbn [fst snd] in *. fold o. rewrite EL, (remove_mid X R p NIX NIR).
  fold L1. rewrite Ewb. unfold retire_or_rearm, fire_obj. cbv zeta. rewrite Em3, Ef3, Ei3.
  change (nz (max_fire_count o) && (max_fire_count o <=? fire_count o + 1))
    with (retires o (fire_count o + 1)).
  destruct (retires o (fire_count o + 1)) eqn:Er; cbn [fst snd].
  - destruct (wfd_free s3 L1 F [] p H3) as (H4 & Hfr4 & Hbk4).
    exists (FreeNode p s3). split; [reflexivity|]. split; [exact H4|].
    split; [exists X; unfold L1; apply updL_same|]. split.
    + intros q. destruct (Z.eqb_spec q p) as [->|Hq].
      * rewrite FreeNode_obj, Z.eqb_refl, payload_freed. apply payload_with_used. exact Ep3.
      * rewrite Hfr4 by exact Hq. apply Eq3, Hq.
    + rewrite FreeNode_head. cbv zeta. unfold clock_eq. cbn [max_num seq cur_bucket_pos cur_bucket_time].
      rewrite Hh3, Hh1. repeat split.
  - set (c := (now + interval_ms o) mod kTimerBucketNum).
    set (s3' := set_expire s3 p (now + interval_ms o)).
    pose proof (wf_nodup _ _ _ _ H3) as ND3.
    assert (H3' : WFD s3' L1 F [p]).
    { unfold s3', set_expire. apply wfd_set_obj; [exact H3| |].
      - intros Hin1. exfalso. apply (NoDup_app_disj (linked L1 ++ F) [p] p);
          [rewrite <- app_assoc; exact ND3|exact Hin1|left; reflexivity].
      - intros b' Hb' Hin1. exfalso. apply (NoDup_app_disj (linked L1 ++ F) [p] p);
          [rewrite <- app_assoc; exact ND3| |left; reflexivity].
        apply in_or_app; left. apply in_linked. exists b'. auto. }
    assert (Ep3' : obj s3' p = with_expire (obj s3 p) (now + interval_ms o))
      by (unfold s3'; rewrite obj_set_expire, Z.eqb_refl; reflexivity).
    assert (Hc : 0 <= c < kTimerBucketNum) by (apply Z.mod_pos_bound; unfold kTimerBucketNum; lia).
    assert (Ee : expire (obj s3' p) mod kTimerBucketNum = c) by (rewrite Ep3'; reflexivity).
    destruct (wfd_link s3' L1 F [] c p H3' Hc) as (H4 & Hpl4 & Hfr4 & Hbk4 & Hb4 & Hh4).
    + rewrite Ep3'. unfold with_expire. cbn [used].
      apply (f_equal used) in Ep3. cbn in Ep3. rewrite Ep3. exact Hu.
    + exact Ee.
    + rewrite Ep3'. unfold with_expire. cbn [timer_id].
      apply (f_equal timer_id) in Ep3. cbn in Ep3. rewrite Ep3. exact Hi.
    + change (set_expire s3 p (now + interval_ms o)) with s3'. rewrite Ee.
      exists (link_front c p s3'). split; [reflexivity|]. split; [exact H4|]. split.
      { destruct (Z.eqb_spec b c) as [<-|Hne].
        - exists (p :: X). rewrite updL_same. unfold L1. rewrite updL_same. reflexivity.
        - exists X. rewrite updL_other by exact Hne. unfold L1. apply updL_same. }
      split.
      { intros q. rewrite Hpl4. destruct (Z.eqb_spec q p) as [->|Hq].
        - rewrite Ep3'. apply payload_with_expire. exact Ep3.
        - unfold s3'. rewrite obj_set_expire, (proj2 (Z.eqb_neq q p) Hq). apply Eq3, Hq. }
      rewrite Hh4. unfold s3'. rewrite head_set_expire, Hh3, Hh1. apply clock_eq_refl.
Qed.

(** The walk of bucket [b] from slot [hd0 R], where [R] is a suffix of the
    bucket's list: every slot of [R] fires once, in list order. *)
Lemma walk_id s Ls F b i now fuel X R :
  WF s Ls F -> 0 <= b < kTimerBucketNum ->
  b = (cur_bucket_pos (timer_head s) + i) mod kTimerBucketNum ->
  Ls b = X ++ R -> (length R < fuel)%nat ->
  let LF := walk_lists now (obj s) b R (Ls, F) in
  exists s', walk cb_id fuel i now (hd0 R) s = Some (s', map (fun q => timer_id (obj s q)) R) /\
    WF s' (fst LF) (snd LF) /\
    (forall q, payload (obj s' q) =
               payload (if in_dec Z.eq_dec q R then fire_obj now (obj s q) else obj s q)) /\
    clock_eq (timer_head s) (timer_head s').
Proof.
  revert s Ls F X fuel. induction R as [|p R IH]; intros s Ls F X fuel H Hb Hbi EL Hf LF.
  - destruct fuel as [|f]; [cbn in Hf; lia|]. exists s. cbn. split; [reflexivity|].
    split; [exact H|]. split; [reflexivity|apply clock_eq_refl].
  - destruct fuel as [|f]; [cbn in Hf; lia|].
    assert (Hin : In p (Ls b)) by (rewrite EL; apply in_or_app; right; left; reflexivity).
    assert (Hp0 : p <> 0).
    { apply (wfd_not0 _ _ _ _ p H). apply in_or_app; left. apply in_linked. exists b; auto. }
    assert (NDb : NoDup (Ls b)) by apply (NoDup_app_l _ _ (wfd_nodup_b _ _ _ _ _ H Hb)).
    rewrite EL in NDb. apply NoDup_app_r in NDb. apply NoDup_cons_iff in NDb. destruct NDb as [NIR _].
    destruct (fire_step s Ls F b i now X p R H Hb Hbi EL)
      as (s4 & Ewb & H4 & (X' & EL4) & Hpl4 & Hc4).
    set (LF1 := fire_lists now (obj s) b p (Ls, F)) in *.
    assert (Hbi4 : b = (cur_bucket_pos (timer_head s4) + i) mod kTimerBucketNum)
      by (destruct Hc4 as (_ & _ & E & _); rewrite E; exact Hbi).
    assert (Eq4 : forall q, In q R -> payload (obj s4 q) = payload (obj s q)).
    { intros q Hq. rewrite Hpl4. rewrite (proj2 (Z.eqb_neq q p)) by congruence. reflexivity. }
    destruct (IH s4 (fst LF1) (snd LF1) X' f H4 Hb Hbi4 EL4 ltac:(cbn in Hf; lia))
      as (s' & Ew & H' & Hpl' & Hc').
    assert (Enx : nz (hd0 R) && (used (obj s4 (hd0 R)) =? 0) = false).
    { destruct R as [|r R']; [reflexivity|]. cbn [hd0].
      assert (Hr : In r (fst LF1 b)) by (rewrite EL4; apply in_or_app; right; left; reflexivity).
      destruct (wf_slot _ _ _ _ H4 b r Hb Hr) as (Hu & _ & _).
      rewrite (proj2 (Z.eqb_neq _ 0) Hu). apply andb_false_r. }
    exists s'. split; [|split; [|split]].
    + cbn [walk hd0]. rewrite (proj2 (Z.eqb_neq p 0) Hp0), Ewb, Enx.
      change (walk cb_id f i now (hd0 R) s4 = Some (s', map (fun q => timer_id (obj s4 q)) R)) in Ew.
      rewrite Ew. cbn [map]. f_equal. f_equal. f_equal. apply map_ext_in. intros q Hq.
      apply timer_id_payload, Eq4, Hq.
    + unfold LF, walk_lists. cbn [fold_left]. fold LF1. rewrite (surjective_pairing LF1).
      fold (walk_lists now (obj s) b R (fst LF1, snd LF1)).
      rewrite <- (walk_lists_ext now (obj s4) (obj s) b R) by exact Eq4. exact H'.
    + intros q. rewrite Hpl'. destruct (in_dec Z.eq_dec q (p :: R)) as [Hq|Hq].
      * destruct (in_dec Z.eq_dec q R) as [HqR|HqR].
        -- apply payload_fire_obj, Eq4, HqR.
        -- destruct Hq as [<-|Hq]; [|contradiction]. rewrite Hpl4, Z.eqb_refl. reflexivity.
      * destruct (in_dec Z.eq_dec q R) as [HqR|HqR]; [exfalso; apply Hq; right; exact HqR|].
        rewrite Hpl4, (proj2 (Z.eqb_neq q p)) by (intros ->; apply Hq; left; reflexivity).
        reflexivity.
    + exact (clock_eq_trans _ _ _ Hc4 Hc').
Qed.

Lemma walk_abs_ext now b A A' :
  abs_eq A A' -> abs_eq (fst (walk_abs now b A)) (fst (walk_abs now b A')) /\
                 snd (walk_abs now b A) = snd (walk_abs now b A').
Proof.
  destruct A as [o LF], A' as [o' LF']. intros [Ho E]. cbn in Ho, E. subst LF'.
  unfold walk_abs, abs_eq. cbn [fst snd]. split; [split|].
  - intros q. destruct (in_dec _ _ _); [apply payload_fire_obj|]; apply Ho.
  - cbn. apply walk_lists_ext. intros q _. apply Ho.
  - apply map_ext. intros q. apply timer_id_payload, Ho.
Qed.

Lemma ticks_abs_ext now c i k A A' :
  abs_eq A A' -> abs_eq (fst (ticks_abs now c i k A)) (fst (ticks_abs now c i k A')) /\
                 snd (ticks_abs now c i k A) = snd (ticks_abs now c i k A').
Proof.
  revert i A A'. induction k as [|k IH]; intros i A A' H; [split; [exact H|reflexivity]|].
  cbn [ticks_abs fst snd].
  destruct (walk_abs_ext now ((c + i) mod kTimerBucketNum) A A' H) as [H1 E1].
  destruct (IH (i + 1) _ _ H1) as [H2 E2]. split; [exact H2|]. rewrite E1, E2. reflexivity.
Qed.

Lemma length_bucket_max s Ls F b :
  WF s Ls F -> 0 <= b < kTimerBucketNum ->
  (length (Ls b) <= Z.to_nat (max_num (timer_head s)))%nat.
Proof.
  intros H Hb. pose proof (wfd_total _ _ _ _ H) as Et. pose proof (length_bucket_linked Ls b Hb).
  rewrite !length_app in Et. lia.
Qed.

(** [for_ticks] with callbacks that leave the wheel alone follows [ticks_abs]. *)
Lemma for_ticks_id fuel now k : forall i s Ls F,
  WF s Ls F -> (Z.to_nat (max_num (timer_head s)) < fuel)%nat ->
  let T := ticks_abs now (cur_bucket_pos (timer_head s)) i k (obj s, (Ls, F)) in
  exists s', for_ticks cb_id fuel now i k s = Some (s', snd T) /\
    WF s' (fst (snd (fst T))) (snd (snd (fst T))) /\
    (forall q, payload (obj s' q) = payload (fst (fst T) q)) /\
    clock_eq (timer_head s) (timer_head s').
Proof.
  induction k as [|k IH]; intros i s Ls F H Hf T.
  - exists s. split; [reflexivity|]. split; [exact H|]. split; [reflexivity|apply clock_eq_refl].
  - set (c := cur_bucket_pos (timer_head s)) in *.
    set (b := (c + i) mod kTimerBucketNum).
    assert (Hb : 0 <= b < kTimerBucketNum) by (apply Z.mod_pos_bound; unfold kTimerBucketNum; lia).
    pose proof (length_bucket_max s Ls F b H Hb) as Hlb.
    destruct (walk_id s Ls F b i now fuel [] (Ls b) H Hb eq_refl eq_refl ltac:(lia))
      as (s1 & Ew & H1 & Hpl1 & Hc1).
    set (A1 := fst (walk_abs now b (obj s, (Ls, F)))).
    assert (Hf1 : (Z.to_nat (max_num (timer_head s1)) < fuel)%nat)
      by (destruct Hc1 as (E & _); rewrite E; exact Hf).
    destruct (IH (i + 1) s1 _ _ H1 Hf1) as (s' & Ef & H' & Hpl' & Hc').
    assert (Ec : cur_bucket_pos (timer_head s1) = c) by (destruct Hc1 as (_ & _ & E & _); exact E).
    rewrite Ec in Ef, H', Hpl'. rewrite <- surjective_pairing in Ef, H', Hpl'.
    set (A1' := (obj s1, walk_lists now (obj s) b (Ls b) (Ls, F))) in *.
    assert (HA : abs_eq A1' A1).
    { split; [|reflexivity]. intros q. unfold A1', A1, walk_abs. cbn [fst snd]. rewrite Hpl1. reflexivity. }
    destruct (ticks_abs_ext now c (i + 1) k A1' A1 HA) as [[HT1 HT2] HT3].
    exists s'. split; [|split; [|split]].
    + cbn [for_ticks]. fold c. fold b.
      rewrite (dll_hd _ _ _ _ (wf_buckets _ _ _ _ H b Hb)). rewrite Ew.
      unfold A1' in Ef. cbn [fst snd] in Ef. rewrite Ef. unfold T. cbn [ticks_abs fst snd].
      fold b. fold A1. rewrite <- HT3. reflexivity.
    + unfold T. cbn [ticks_abs fst snd]. fold b. fold A1. rewrite <- HT2. exact H'.
    + intros q. rewrite Hpl', HT1. reflexivity.
    + exact (clock_eq_trans _ _ _ Hc1 Hc').
Qed.

Lemma ticks_abs_empty now c k : forall i o Ls F,
  (forall b, 0 <= b < kTimerBucketNum -> Ls b = []) ->
  let T := ticks_abs now c i k (o, (Ls, F)) in
  snd T = [] /\ snd (fst T) = (Ls, F) /\ (forall q, payload (fst (fst T) q) = payload (o q)).
Proof.
  induction k as [|k IH]; intros i o Ls F HL T; [repeat split|].
  set (b := (c + i) mod kTimerBucketNum).
  assert (Hb : 0 <= b < kTimerBucketNum) by (apply Z.mod_pos_bound; unfold kTimerBucketNum; lia).
  set (o1 := fun q => if in_dec Z.eq_dec q (Ls b) then fire_obj now (o q) else o q).
  assert (E1 : walk_abs now b (o, (Ls, F)) = ((o1, (Ls, F)), [])).
  { unfold walk_abs. cbn [fst snd]. fold o1. rewrite (HL b Hb). reflexivity. }
  destruct (IH (i + 1) o1 Ls F HL) as (E2 & E3 & E4).
  unfold T. cbn [ticks_abs fst snd]. fold b. rewrite E1. cbn [fst snd].
  split; [rewrite E2; reflexivity|]. split; [exact E3|].
  intros q. rewrite E4. unfold o1. rewrite (HL b Hb). reflexivity.
Qed.

(** [Update] with callbacks that leave the wheel alone follows [ticks_abs]. *)
Lemma Update_id fuel now s Ls F :
  WF s Ls F -> (Z.to_nat (max_num (timer_head s)) < fuel)%nat ->
  let T := ticks_abs now (cur_bucket_pos (timer_head s)) 1
             (Z.to_nat (to_int32 (now - cur_bucket_time (timer_head s)))) (obj s, (Ls, F)) in
  exists s', Update cb_id fuel now s = Some (set_cur s' now, snd T) /\
    WF (set_cur s' now) (fst (snd (fst T))) (snd (snd (fst T))) /\
    (forall q, payload (obj s' q) = payload (fst (fst T) q)) /\
    clock_eq (timer_head s) (timer_head s').
Proof.
  intros H Hf T. unfold Update.
  destruct (Z.eqb_spec (used_num (timer_head s)) 0) as [E0|E0].
  - pose proof (wf_used_num _ _ _ _ H) as Eu. rewrite E0, app_nil_r in Eu.
    assert (HL : forall b, 0 <= b < kTimerBucketNum -> Ls b = []).
    { intros b Hb. destruct (Ls b) as [|q l] eqn:Eb; [reflexivity|]. exfalso.
      assert (Hq : In q (linked Ls)) by (apply in_linked; exists b; rewrite Eb; split; [exact Hb|left; reflexivity]).
      destruct (linked Ls); [destruct Hq|cbn in Eu; lia]. }
    destruct (ticks_abs_empty now (cur_bucket_pos (timer_head s))
                (Z.to_nat (to_int32 (now - cur_bucket_time (timer_head s)))) 1 (obj s) Ls F HL)
      as (E1 & E2 & E3).
    fold T in E1, E2, E3. exists s. rewrite E1, E2. cbn [fst snd].
    split; [reflexivity|]. split; [apply wfd_set_cur, H|]. split; [intros q; rewrite E3; reflexivity|].
    apply clock_eq_refl.
  - destruct (for_ticks_id fuel now (Z.to_nat (to_int32 (now - cur_bucket_time (timer_head s))))
                1 s Ls F H Hf) as (s' & Ef & H' & Hpl & Hc).
    fold T in Ef, H', Hpl. exists s'. rewrite Ef.
    split; [reflexivity|]. split; [apply wfd_set_cur, H'|]. split; [exact Hpl|exact Hc].
Qed.

End Walk.

(** ** Drivers and observers used to state the properties. *)
Section Drivers.
Context {Data : Type}.
Notation Obj := (@TimerObj Data).
Notation W := (@Wheel Data).

(** [n] calls of [Update], one per tick: each at [cur_bucket_time + 1].  The
    result lists each tick with the handles passed to [OnTimeout] at it. *)
Fixpoint per_tick (OnTimeout : Z -> Data -> W -> W) (fuel n : nat) (s : W)
  : option (W * list (Z * list Z)) :=
  match n with
  | O => Some (s, [])
  | S n' =>
      let t := cur_bucket_time (timer_head s) + 1 in
      match Update OnTimeout fuel t s with
      | None => None
      | Some (s1, tr) =>
          match per_tick OnTimeout fuel n' s1 with
          | None => None
          | Some (s2, l) => Some (s2, (t, tr) :: l)
          end
      end
  end.

(** The ticks at which handle [h] was passed to [OnTimeout], once per call. *)
Definition fire_ticks (h : Z) (l : list (Z * list Z)) : list Z :=
  flat_map (fun ttr => repeat (fst ttr) (count_occ Z.eq_dec (snd ttr) h)) l.

(** The slots met by following [next] from [hd], at most [fuel] of them. *)
Fixpoint chain (fuel : nat) (o : Z -> Obj) (hd : Z) : list Z :=
  match fuel with
  | O => []
  | S f => if hd =? 0 then [] else hd :: chain f o (next (o hd))
  end.

(** The number of distinct slots reachable by walking the bucket lists. *)
Definition linked_count (s : W) : nat :=
  length (nodup Z.eq_dec
    (flat_map (fun b => chain (S (Z.to_nat (max_num (timer_head s)))) (timer_obj s) (bucket s b))
       buckets)).

(** [k] successful [AddTimer] calls lead from [s] to [s']. *)
Inductive adds : nat -> W -> W -> Prop :=
  | adds_nil s : adds 0 s s
  | adds_cons k s s1 now interval fire_cnt d h s2 :
      adds k s s1 -> AddTimer now interval fire_cnt d s1 = (AddOk h, s2) -> adds (S k) s s2.

(** States reachable from a fresh [Init] by [AddTimer], [DelTimer] and
    [Update] with callbacks that leave the wheel alone. *)
Inductive reachable : W -> Prop :=
  | reach_init mem ms ds os n now_sec time_now s :
      Init mem ms ds os n now_sec time_now = Some s -> 0 <= n < 2 ^ 32 -> reachable s
  | reach_add s now interval fire_cnt d r s' :
      reachable s -> AddTimer now interval fire_cnt d s = (r, s') -> reachable s'
  | reach_del s fuel id r s' :
      reachable s -> DelTimer fuel id s = Some (r, s') -> reachable s'
  | reach_update s fuel now s' tr :
      reachable s -> Update cb_id fuel now s = Some (s', tr) -> reachable s'.

End Drivers.

Section Capacity.
Context {Data : Type}.
Notation W := (@Wheel Data).

(** Each successful [AddTimer] takes one slot off the free list. *)
Lemma adds_wf k (s0 s : W) Ls F :
  adds k s0 s -> WF s0 Ls F -> exists Ls' F', WF s Ls' F' /\ length F = (length F' + k)%nat.
Proof.
  intros A H. induction A as [s|k s s1 now I fc d h s2 A IH E].
  - exists Ls, F. split; [exact H|lia].
  - destruct (IH H) as (Ls1 & F1 & H1 & Hl).
    destruct (AddTimer_ok s1 Ls1 F1 now I fc d h s2 H1 E) as (p & F' & -> & _ & H2 & _).
    eexists _, F'. split; [exact H2|]. cbn [length] in Hl. lia.
Qed.

End Capacity.

(** ** Concrete wheels ([TimerDataType] = [nat]). *)
Section Scenarios.

Definition zobj : @TimerObj nat := mkObj 0 0 0 0 0 0 0 0 0%nat.
Definition mem0 : @Wheel nat := mkWheel (mkHead 0 0 0 0 0 0 0 0) (fun _ => 0) (fun _ => zobj).

(** A fresh wheel of [n] slots at time [now] ([time(NULL)] = 0). *)
Definition fresh (n now : Z) : @Wheel nat :=
  match Init mem0 100000 8 64 n now 0 with Some s => s | None => mem0 end.

Definition after_add (r : AddResult * @Wheel nat) : @Wheel nat := snd r.
Definition after_del (r : option (DelResult * @Wheel nat)) (s : @Wheel nat) : @Wheel nat :=
  match r with Some (_, s') => s' | None => s end.

(** Two one-shot timers of 5 ticks added at time 0 to a wheel of 2 slots:
    B (slot 1) first, then A (slot 2), which is now the head of bucket 5. *)
Definition two_timers : @Wheel nat :=
  after_add (AddTimer 0 5 1 1%nat (after_add (AddTimer 0 5 1 2%nat (fresh 2 0)))).
Definition idA : Z := mk_id 2 1.
Definition idB : Z := mk_id 1 0.

(** A's callback deletes B (the saved next slot), then A itself. *)
Definition cb_del_next_then_self (h : Z) (d : nat) (s : @Wheel nat) : @Wheel nat :=
  if h =? idA then
    let s1 := after_del (DelTimer 100 idB s) s in after_del (DelTimer 100 idA s1) s1
  else s.

(** A's callback deletes A itself, then B (the saved next slot). *)
Definition cb_del_self_then_next (h : Z) (d : nat) (s : @Wheel nat) : @Wheel nat :=
  if h =? idA then
    let s1 := after_del (DelTimer 100 idA s) s in after_del (DelTimer 100 idB s1) s1
  else s.

(** A's callback deletes A and adds a one-shot timer of 7 ticks. *)
Definition cb_del_self_readd (h : Z) (d : nat) (s : @Wheel nat) : @Wheel nat :=
  if h =? idA then
    let s1 := after_del (DelTimer 100 idA s) s in after_add (AddTimer 5 7 1 9%nat s1)
  else s.

(** A repeating timer of 1 tick on a wheel of one slot, at time 0. *)
Definition every_tick : @Wheel nat := after_add (AddTimer 0 1 0 1%nat (fresh 1 0)).


(** One add-and-delete cycle on a wheel. *)
Definition add_del_cycle (s : @Wheel nat) : @Wheel nat :=
  match AddTimer 0 1 1 0%nat s with
  | (AddOk h, s1) => after_del (DelTimer 10 h s1) s1
  | (_, s1) => s1
  end.

End Scenarios.

(** ** Repeated reuse of the only slot of a wheel. *)
Section Reuse.

Lemma unlink_canon_head {Data : Type} b p (s : @Wheel Data) :
  timer_head (unlink_canon b p s) = timer_head s.
Proof.
  unfold unlink_canon. destruct (prev (obj s p) =? 0), (nz (next (obj s p)));
    reflexivity.
Qed.

(** The wheel of one free slot, with the sequence counter at [q], at time 0. *)
Definition cycle_inv (q : Z) (s : @Wheel nat) : Prop :=
  WF s (fun _ => []) [1] /\ seq (timer_head s) = q /\ cur_bucket_time (timer_head s) = 0.

Lemma cycle_add q s :
  cycle_inv q s ->
  exists s1, AddTimer 0 1 1 0%nat s = (AddOk (mk_id 1 q), s1) /\
    WF s1 (updL (fun _ => []) 1 [1]) [] /\ timer_id (obj s1 1) = mk_id 1 q /\
    expire (obj s1 1) = 1 /\ used (obj s1 1) = 1 /\
    seq (timer_head s1) = u32 (q + 1) /\ cur_bucket_time (timer_head s1) = 0.
Proof.
  intros (H & Hq & Hc).
  destruct (AddTimer_spec s _ _ 0 1 1 0%nat H ltac:(unfold kTimerBucketNum; lia) ltac:(lia)
              ltac:(lia)) as (s1 & E & H1 & Ho & _ & _ & _ & _ & Hs & _ & _ & Hc1).
  rewrite Hq in E, Ho, Hs. exists s1. rewrite Ho. cbn [timer_id expire used].
  split; [exact E|]. split; [exact H1|]. repeat (split; [reflexivity|]). split; [exact Hs|].
  rewrite Hc1. exact Hc.
Qed.

Lemma cycle_del q s1 :
  0 <= q < 2 ^ 32 ->
  WF s1 (updL (fun _ => []) 1 [1]) [] -> timer_id (obj s1 1) = mk_id 1 q ->
  seq (timer_head s1) = u32 (q + 1) -> cur_bucket_time (timer_head s1) = 0 ->
  exists s2, DelTimer 10 (mk_id 1 q) s1 = Some (DelOk, s2) /\ cycle_inv (u32 (q + 1)) s2.
Proof.
  intros Hq H Ht Hs Hc.
  assert (Hp : id_pos (mk_id 1 q) = 1) by (apply id_pos_mk_id; lia).
  assert (EL : updL (fun _ => []) 1 [1] 1 = [] ++ id_pos (mk_id 1 q) :: []).
  { rewrite Hp, updL_same. reflexivity. }
  assert (Hl : (length (linked (updL (fun _ => []) 1 [1%Z])) < 10)%nat).
  { vm_compute. lia. }
  assert (Ht' : timer_id (obj s1 (id_pos (mk_id 1 q))) = mk_id 1 q) by (rewrite Hp; exact Ht).
  destruct (DelTimer_linked s1 _ [] 10 (mk_id 1 q) 1 [] [] H Hl
              ltac:(unfold kTimerBucketNum; lia) EL Ht') as (E & H2 & _ & _ & Hh).
  eexists. split; [exact E|]. rewrite Hp in H2 |- *. split; [|split].
  - apply (WF_ext _ (updL (updL (fun _ => []) 1 [1]) 1 ([] ++ []))); [|exact H2].
    intros b _. unfold updL. destruct (b =? 1); reflexivity.
  - change (seq (timer_head (unlink_canon 1 1 s1)) = u32 (q + 1)).
    rewrite unlink_canon_head. exact Hs.
  - change (cur_bucket_time (timer_head (unlink_canon 1 1 s1)) = 0).
    rewrite unlink_canon_head. exact Hc.
Qed.

(** [m] add-and-delete cycles on a fresh wheel of one slot. *)
Lemma cycle_iter (m : N) :
  cycle_inv (u32 (Z.of_N m)) (N.iter m add_del_cycle (fresh 1 0)).
Proof.
  induction m as [|m IH] using N.peano_ind.
  - split; [|split; vm_compute; reflexivity].
    apply (Init_wf mem0 100000 8 64 1 0 0); [vm_compute; reflexivity|lia].
  - rewrite N.iter_succ.
    set (s := N.iter m add_del_cycle (fresh 1 0)). fold s in IH.
    destruct (cycle_add _ _ IH) as (s1 & E & H1 & Ht & _ & _ & Hs & Hc).
    destruct (cycle_del (u32 (Z.of_N m)) s1 (u32_range _) H1 Ht Hs Hc) as (s2 & E2 & H2).
    unfold add_del_cycle. rewrite E. unfold after_del. rewrite E2.
    replace (u32 (Z.of_N (N.succ m))) with (u32 (u32 (Z.of_N m) + 1)); [exact H2|].
    unfold u32. rewrite N2Z.inj_succ, Z.add_mod_idemp_l by lia. reflexivity.
Qed.

End Reuse.

(** ** A callback that deletes the saved next slot and then its own timer. *)
Section Divergence.

Lemma walk_S {Data : Type} cb fuel i now pos (s : @Wheel Data) :
  walk cb (S fuel) i now pos s =
  if pos =? 0 then Some (s, [])
  else
    let '(s1, id, nx) := walk_body cb i now pos s in
    let pos' := if nz nx && (used (obj s1 nx) =? 0) then pos else nx in
    match walk cb fuel i now pos' s1 with
    | None => None
    | Some (s2, tr) => Some (s2, id :: tr)
    end.
Proof. reflexivity. Qed.

(** A tick whose bucket is empty changes nothing. *)
Lemma for_ticks_empty {Data : Type} cb fuel now i k (s : @Wheel Data) :
  bucket s ((cur_bucket_pos (timer_head s) + i) mod kTimerBucketNum) = 0 ->
  for_ticks cb (S fuel) now i (S k) s = for_ticks cb (S fuel) now (i + 1) k s.
Proof.
  intros Hb. cbn [for_ticks]. rewrite Hb. cbn [walk Z.eqb].
  destruct (for_ticks cb (S fuel) now (i + 1) k s) as [[s2 tr]|]; reflexivity.
Qed.

(** A [DelTimer] of a handle whose slot is not in use changes nothing. *)
Lemma DelTimer_unused {Data : Type} fuel id (s : @Wheel Data) :
  used (obj s (id_pos id)) = 0 -> exists r, DelTimer fuel id s = Some (r, s).
Proof.
  intros Hu. unfold DelTimer. rewrite Hu, Z.eqb_refl, orb_true_r.
  destruct (_ || _); eexists; reflexivity.
Qed.

(** Both slots freed, slot 2 (A) still naming slot 1 (B) as its [next]. *)
Definition both_freed (s : @Wheel nat) : Prop :=
  used (obj s 1) = 0 /\ used (obj s 2) = 0 /\ next (obj s 2) = 1 /\ timer_id (obj s 2) = idA.

Lemma cb_del_next_then_self_freed h d s :
  both_freed s -> cb_del_next_then_self h d s = s.
Proof.
  intros (H1 & H2 & _). unfold cb_del_next_then_self. destruct (h =? idA); [|reflexivity].
  assert (EB : id_pos idB = 1) by reflexivity. assert (EA : id_pos idA = 2) by reflexivity.
  destruct (DelTimer_unused 100 idB s ltac:(rewrite EB; exact H1)) as (r1 & E1).
  unfold after_del at 2. rewrite E1.
  destruct (DelTimer_unused 100 idA s ltac:(rewrite EA; exact H2)) as (r2 & E2).
  unfold after_del. rewrite E2. reflexivity.
Qed.

(** From such a state the walk stays on slot 2 until its fuel runs out. *)
Lemma walk_freed_loop fuel s :
  both_freed s -> walk cb_del_next_then_self fuel 5 5 2 s = None.
Proof.
  revert s. induction fuel as [|f IH]; intros s H; [reflexivity|].
  rewrite walk_S. cbn [Z.eqb Pos.eqb]. unfold walk_body.
  set (s1 := set_fire_count s 2 (fire_count (obj s 2) + 1)).
  assert (H1 : both_freed s1).
  { destruct H as (Hu1 & Hu2 & Hn & Ht). unfold s1, set_fire_count.
    repeat split; autorewrite with setters; cbn; assumption. }
  assert (Et : timer_id (obj s1 2) = idA) by apply H1.
  rewrite Et, (cb_del_next_then_self_freed _ _ s1 H1).
  pose proof H1 as HH. destruct H1 as (Hu1 & Hu2 & Hn & Ht).
  rewrite Hu2. cbn [nz negb Z.eqb]. fold s1.
  assert (Hn0 : next (obj s 2) = 1).
  { destruct H as (_ & _ & Hn' & _). exact Hn'. }
  rewrite Hn0, Hu1. cbn [nz negb Z.eqb andb].
  rewrite (IH s1 HH). reflexivity.
Qed.

Lemma two_timers_first_fire :
  exists s1, walk_body cb_del_next_then_self 5 5 2 two_timers = (s1, idA, 1) /\ both_freed s1.
Proof.
  eexists. split; [vm_compute; reflexivity|]. vm_compute. repeat split; reflexivity.
Qed.

End Divergence.

(** * The claims *)

(** C1 (counterexample): a repeating timer of 1 tick.  One [Update] after 61
    ticks fires it twice; 61 per-tick [Update]s fire it 61 times. *)
Lemma C1_counterexample :
  option_map (fun r => length (snd r)) (Update cb_id 100 61 every_tick) = Some 2%nat /\
  option_map (fun r => length (flat_map snd (snd r))) (per_tick cb_id 100 61 every_tick)
    = Some 61%nat.
Proof. split; vm_compute; reflexivity. Qed.

(** C5 (counterexample): the one-shot timer A ([max_fire_count = 1]) is passed
    twice to its callback at tick 5, under per-tick [Update]s, when the
    callback deletes A and then the next slot B. *)
Lemma C5_counterexample :
  max_fire_count (obj two_timers 2) = 1 /\ timer_id (obj two_timers 2) = idA /\
  option_map (fun r => fire_ticks idA (snd r)) (per_tick cb_del_self_then_next 50 5 two_timers)
    = Some [5; 5].
Proof. repeat split; vm_compute; reflexivity. Qed.

(** C6: a callback that deletes its own timer A and then B, the slot saved as
    [next], makes [Update] fire A a second time from its freed slot: the
    [continue] of the walk keeps [pos] on A because B is no longer used. *)
Lemma C6_refire_after_self_delete :
  option_map snd (Update cb_del_self_then_next 50 5 two_timers) = Some [idA; idA] /\
  used (obj two_timers 2) = 1 /\ max_fire_count (obj two_timers 2) = 1.
Proof. repeat split; vm_compute; reflexivity. Qed.

(** C8 (counterexample): a callback that deletes its own timer and adds a new
    one (which reuses the slot) leaves [used_num = 2] while only one slot is
    reachable from the buckets (B is orphaned, slot 2 loops on itself). *)
Lemma C8_counterexample :
  exists s tr, Update cb_del_self_readd 50 5 two_timers = Some (s, tr) /\
    used_num (timer_head s) = 2 /\ linked_count s = 1%nat.
Proof. vm_compute. eexists _, _. split; [reflexivity|]. split; vm_compute; reflexivity. Qed.


(** C7: every operation is all-or-nothing.  On any wheel, an [AddTimer] or
    [DelTimer] that returns an error returns the wheel it was given
    ([GetExpireTime] returns no wheel at all).  On a well-formed wheel, an
    [AddOk] has taken the first free slot, filled it with the new timer and
    linked it at the front of its bucket, and a [DelOk] has unlinked the
    timer's slot and put it on the free list, the invariant holding after. *)
Theorem C7_all_or_nothing {Data : Type} (s : @Wheel Data) Ls F fuel id now I k d :
  WF s Ls F ->
  (forall r s', AddTimer now I k d s = (r, s') -> (forall h, r <> AddOk h) -> s' = s) /\
  (forall r s', DelTimer fuel id s = Some (r, s') -> r <> DelOk -> s' = s) /\
  (forall h s', AddTimer now I k d s = (AddOk h, s') ->
     exists p F', F = p :: F' /\ h = mk_id p (seq (timer_head s)) /\
       let b := (now + I) mod kTimerBucketNum in
       WF s' (updL Ls b (p :: Ls b)) F' /\ bucket s' b = p /\
       obj s' p = mkObj 0 (bucket s b) 1 I k 0 (now + I) h d /\
       used_num (timer_head s') = used_num (timer_head s) + 1) /\
  (forall s', DelTimer fuel id s = Some (DelOk, s') ->
     exists b L1 L2, 0 <= b < kTimerBucketNum /\ Ls b = L1 ++ id_pos id :: L2 /\
       WF s' (updL Ls b (L1 ++ L2)) (id_pos id :: F) /\ used (obj s' (id_pos id)) = 0 /\
       used_num (timer_head s') = used_num (timer_head s) - 1).
Proof.
  intros H. split; [apply AddTimer_not_ok|]. split; [apply DelTimer_not_ok|]. split.
  - intros h s' E. destruct (AddTimer_ok s Ls F now I k d h s' H E)
      as (p & F' & EF & Eh & H' & Ho & _ & Hb & _ & Hu & _).
    exists p, F'. repeat (split; [assumption|]). exact Hu.
  - intros s' E. destruct (DelTimer_ok s Ls F fuel id s' H E)
      as (b & L1 & L2 & Hb & EL & _ & _ & H' & _ & Hu).
    exists b, L1, L2. split; [exact Hb|]. split; [exact EL|]. split; [exact H'|].
    split; [exact Hu|].
    rewrite (wf_used_num _ _ _ _ H'), (wf_used_num _ _ _ _ H), !app_nil_r.
    rewrite (Permutation_length (linked_updL Ls b (L1 ++ L2) Hb)),
      (Permutation_length (linked_split Ls b Hb)), EL, !length_app. cbn [length]. lia.
Qed.

Lemma C7_witness :
  WF (fresh 2 0) (fun _ => []) [1; 2] /\
  (forall r s', AddTimer 0 0 1 0%nat (fresh 2 0) = (r, s') -> (forall h, r <> AddOk h) ->
     s' = fresh 2 0).
Proof.
  assert (H : WF (fresh 2 0) (fun _ => []) [1; 2]).
  { apply (Init_wf mem0 100000 8 64 2 0 0); [vm_compute; reflexivity|lia]. }
  split; [exact H|].
  exact (proj1 (C7_all_or_nothing (fresh 2 0) (fun _ => []) [1; 2] 10 0 0 0 1 0%nat H)).
Defined.

(** C9: on a well-formed wheel, [AddTimer] returns [AddInvalidParam] exactly
    when the interval is outside [(0, kTimerBucketNum]] or [fire_cnt < 0];
    [AddClockRegression] exactly when the arguments are valid and
    [now + interval] is before [cur_bucket_time]; [AddNoNode] exactly when
    neither holds and every slot is in use; otherwise it returns the handle
    of the first free slot, which is now linked in the bucket of its expiry. *)
Theorem C9_add_errors {Data : Type} (s : @Wheel Data) Ls F now I k d :
  WF s Ls F ->
  let r := fst (AddTimer now I k d s) in
  let valid := 0 < I <= kTimerBucketNum /\ 0 <= k in
  let late := cur_bucket_time (timer_head s) <= now + I in
  (r = AddInvalidParam <-> ~ valid) /\
  (r = AddClockRegression <-> valid /\ ~ late) /\
  (r = AddNoNode <-> valid /\ late /\ used_num (timer_head s) = max_num (timer_head s)) /\
  (valid -> late -> used_num (timer_head s) <> max_num (timer_head s) ->
     exists p F', F = p :: F' /\ r = AddOk (mk_id p (seq (timer_head s))) /\
       ~ In p (linked Ls) /\
       let b := (now + I) mod kTimerBucketNum in
       WF (snd (AddTimer now I k d s)) (updL Ls b (p :: Ls b)) F').
Proof.
  intros H r valid late.
  destruct (wf_full s Ls F H) as [Hfull _].
  destruct ((I <=? 0) || (kTimerBucketNum <? I) || (k <? 0)) eqn:V.
  { assert (Er : r = AddInvalidParam) by (unfold r, AddTimer; rewrite V; reflexivity).
    assert (Hv : ~ valid).
    { unfold valid. rewrite !orb_true_iff, Z.leb_le, !Z.ltb_lt in V. lia. }
    rewrite Er. split; [tauto|]. split; [split; [discriminate|tauto]|].
    split; [split; [discriminate|tauto]|]. tauto. }
  assert (Hv : valid).
  { unfold valid. rewrite !orb_false_iff, Z.leb_gt, !Z.ltb_ge in V. lia. }
  destruct (now + I <? cur_bucket_time (timer_head s)) eqn:C.
  { assert (Er : r = AddClockRegression) by (unfold r, AddTimer; rewrite V, C; reflexivity).
    assert (Hl : ~ late) by (unfold late; apply Z.ltb_lt in C; lia).
    rewrite Er. split; [split; [discriminate|tauto]|]. split; [tauto|].
    split; [split; [discriminate|tauto]|]. tauto. }
  assert (Hl : late) by (unfold late; apply Z.ltb_ge in C; lia).
  destruct Hv as [HI Hk].
  pose proof (AddTimer_spec s Ls F now I k d H HI Hk Hl) as Hs.
  destruct F as [|p F'].
  { assert (Er : r = AddNoNode) by (unfold r; rewrite Hs; reflexivity).
    assert (Hu : used_num (timer_head s) = max_num (timer_head s)) by (apply Hfull; reflexivity).
    rewrite Er. split; [split; [discriminate|unfold valid; tauto]|].
    split; [split; [discriminate|tauto]|]. split; [unfold valid; tauto|]. tauto. }
  destruct Hs as (s' & E & H' & _).
  assert (Er : r = AddOk (mk_id p (seq (timer_head s)))) by (unfold r; rewrite E; reflexivity).
  assert (Hu : used_num (timer_head s) <> max_num (timer_head s))
    by (intros Hu; apply Hfull in Hu; discriminate).
  rewrite Er. split; [split; [discriminate|unfold valid; tauto]|].
  split; [split; [discriminate|tauto]|]. split; [split; [discriminate|tauto]|].
  intros _ _ _. exists p, F'. split; [reflexivity|]. split; [reflexivity|]. split.
  - pose proof (wf_nodup _ _ _ _ H) as ND. intros Hin.
    apply (NoDup_app_disj _ _ p ND Hin). apply in_or_app. left. left. reflexivity.
  - rewrite E. exact H'.
Qed.

Lemma C9_witness :
  WF (fresh 2 0) (fun _ => []) [1; 2] /\
  (fst (AddTimer 0 0 1 0%nat (fresh 2 0)) = AddInvalidParam <->
     ~ (0 < 0 <= kTimerBucketNum /\ 0 <= 1)).
Proof.
  assert (H : WF (fresh 2 0) (fun _ => []) [1; 2]).
  { apply (Init_wf mem0 100000 8 64 2 0 0); [vm_compute; reflexivity|lia]. }
  split; [exact H|].
  exact (proj1 (C9_add_errors (fresh 2 0) (fun _ => []) [1; 2] 0 0 1 0%nat H)).
Defined.

(** C4: on a wheel of [n] slots fresh from [Init], after [n] successful
    [AddTimer] calls (and nothing else) a valid [AddTimer] that is not in the
    past returns [AddNoNode] and leaves the wheel as it was; after a
    successful [DelTimer] from there, such an [AddTimer] succeeds. *)
Theorem C4_capacity {Data : Type} mem ms ds os n now_sec time_now (s0 s : @Wheel Data) :
  Init mem ms ds os n now_sec time_now = Some s0 -> 0 <= n < 2 ^ 32 ->
  adds (Z.to_nat n) s0 s ->
  (forall now I k d, 0 < I <= kTimerBucketNum -> 0 <= k ->
     cur_bucket_time (timer_head s) <= now + I -> AddTimer now I k d s = (AddNoNode, s)) /\
  (forall fuel h s', DelTimer fuel h s = Some (DelOk, s') ->
     forall now I k d, 0 < I <= kTimerBucketNum -> 0 <= k ->
     cur_bucket_time (timer_head s') <= now + I ->
     exists h' s'', AddTimer now I k d s' = (AddOk h', s'')).
Proof.
  intros Ei Hn A.
  destruct (adds_wf _ _ _ _ _ A (Init_wf _ _ _ _ _ _ _ _ Ei Hn)) as (Ls & F & H & Hl).
  rewrite length_map, length_seq in Hl.
  assert (EF : F = []) by (destruct F; [reflexivity|cbn in Hl; lia]). subst F.
  split.
  - intros now I k d HI Hk Hc. exact (AddTimer_spec s Ls [] now I k d H HI Hk Hc).
  - intros fuel h s' E now I k d HI Hk Hc.
    destruct (DelTimer_ok s Ls [] fuel h s' H E) as (b & L1 & L2 & _ & _ & _ & _ & H' & _).
    destruct (AddTimer_spec s' _ _ now I k d H' HI Hk Hc) as (s'' & E' & _).
    eexists _, s''. exact E'.
Qed.

Lemma C4_witness :
  AddTimer 0 5 1 0%nat every_tick = (AddNoNode, every_tick).
Proof.
  assert (A : adds (Z.to_nat 1) (fresh 1 0) every_tick).
  { apply (adds_cons 0 (fresh 1 0) (fresh 1 0) 0 1 0 1%nat (mk_id 1 0)); [constructor|vm_compute; reflexivity]. }
  refine (proj1 (C4_capacity mem0 100000 8 64 1 0 0 (fresh 1 0) every_tick _ _ A) 0 5 1 0%nat _ _ _);
    [vm_compute; reflexivity|lia|unfold kTimerBucketNum; lia|lia|vm_compute; discriminate].
Defined.

(** C3 (counterexample): on a wheel of one slot, the handle [mk_id 1 0] of
    the first timer is deleted by the first add-and-delete cycle.  After
    [2 ^ 32] such cycles the sequence counter has wrapped, the next
    [AddTimer] issues the same handle again, and the old handle reads and
    deletes the new timer. *)
Lemma C3_counterexample :
  let s := N.iter (2 ^ 32) add_del_cycle (fresh 1 0) in
  (exists s0, AddTimer 0 1 1 0%nat (fresh 1 0) = (AddOk (mk_id 1 0), s0) /\
     exists s0', DelTimer 10 (mk_id 1 0) s0 = Some (DelOk, s0')) /\
  (exists s1, AddTimer 0 1 1 0%nat s = (AddOk (mk_id 1 0), s1) /\
     GetExpireTime (mk_id 1 0) s1 = GetOk 1 /\
     exists s2, DelTimer 10 (mk_id 1 0) s1 = Some (DelOk, s2)).
Proof.
  intros s. split.
  { exists (after_add (AddTimer 0 1 1 0%nat (fresh 1 0))). split; [vm_compute; reflexivity|].
    exists (after_del (DelTimer 10 (mk_id 1 0) (after_add (AddTimer 0 1 1 0%nat (fresh 1 0))))
              (after_add (AddTimer 0 1 1 0%nat (fresh 1 0)))).
    vm_compute. reflexivity. }
  pose proof (cycle_iter (2 ^ 32)) as Hi. fold s in Hi.
  replace (u32 (Z.of_N (2 ^ 32))) with 0 in Hi by reflexivity.
  destruct (cycle_add _ _ Hi) as (s1 & E & H1 & Ht & He & Hu & Hs & Hc).
  destruct (cycle_del 0 s1 ltac:(lia) H1 Ht Hs Hc) as (s2 & E2 & _).
  exists s1. split; [exact E|]. split; [|exists s2; exact E2].
  assert (Hm : 1 <= max_num (timer_head s1)).
  { apply (wf_range _ _ _ _ H1). apply in_or_app. left. apply in_linked.
    exists 1. rewrite updL_same. split; [unfold kTimerBucketNum; lia|left; reflexivity]. }
  unfold GetExpireTime. rewrite id_pos_mk_id by lia.
  rewrite Ht, Hu, He, Z.eqb_refl. cbn [negb orb].
  replace ((1 =? 0) || (max_num (timer_head s1) <? 1)) with false; [reflexivity|].
  symmetry. apply orb_false_intro; [reflexivity|apply Z.ltb_ge; lia].
Qed.

(** C3: a handle [mk_id p q] of a slot whose current handle has a different
    sequence number (mod [2 ^ 32]) is refused by [DelTimer] and by
    [GetExpireTime] with the invalid-handle error, the wheel unchanged.  The
    sequence number of a new handle is the wheel-wide counter [seq], which
    each successful [AddTimer] advances by one mod [2 ^ 32]; so a reallocated
    slot can get its old handle back (see the counterexample above). *)
Theorem C3_stale_handle {Data : Type} (s : @Wheel Data) Ls F fuel p q :
  WF s Ls F -> 1 <= p <= max_num (timer_head s) ->
  u32 q <> id_seq (timer_id (obj s p)) ->
  DelTimer fuel (mk_id p q) s = Some (DelBadId, s) /\
  GetExpireTime (mk_id p q) s = GetBadId /\
  (forall now I k d h s', AddTimer now I k d s = (AddOk h, s') ->
     id_seq h = seq (timer_head s) /\ seq (timer_head s') = u32 (seq (timer_head s) + 1)).
Proof.
  intros H Hp Hq. pose proof (wf_max _ _ _ _ H) as Hm.
  assert (Ep : id_pos (mk_id p q) = p) by (apply id_pos_mk_id; lia).
  assert (Ebp : (p =? 0) || (max_num (timer_head s) <? p) = false).
  { apply orb_false_intro; [apply Z.eqb_neq; lia|apply Z.ltb_ge; lia]. }
  assert (Eid : timer_id (obj s p) =? mk_id p q = false).
  { apply Z.eqb_neq. intros E. apply Hq. rewrite E, id_seq_mk_id. reflexivity. }
  split; [unfold DelTimer; rewrite Ep, Ebp, Eid; reflexivity|].
  split; [unfold GetExpireTime; rewrite Ep, Ebp, Eid; reflexivity|].
  intros now I k d h s' E.
  destruct (AddTimer_ok_args _ _ _ _ _ _ _ E) as (HI & Hk & Hc).
  pose proof (AddTimer_spec s Ls F now I k d H HI Hk Hc) as Hs.
  destruct (AddTimer_ok s Ls F now I k d h s' H E) as (p' & F' & EF & Eh & _).
  subst F. destruct Hs as (s1 & E1 & _ & _ & _ & _ & _ & _ & Esq & _).
  rewrite E in E1. injection E1 as _ <-.
  pose proof (wf_seq _ _ _ _ H) as HS.
  rewrite Eh, id_seq_mk_id. split; [|exact Esq].
  unfold u32. apply Z.mod_small. lia.
Qed.

Lemma C3_witness :
  WF (fresh 2 0) (fun _ => []) [1; 2] /\ 1 <= 1 <= max_num (timer_head (fresh 2 0)) /\
  u32 5 <> id_seq (timer_id (obj (fresh 2 0) 1)) /\
  DelTimer 10 (mk_id 1 5) (fresh 2 0) = Some (DelBadId, fresh 2 0).
Proof.
  assert (H : WF (fresh 2 0) (fun _ => []) [1; 2]).
  { apply (Init_wf mem0 100000 8 64 2 0 0); [vm_compute; reflexivity|lia]. }
  assert (H1 : 1 <= 1 <= max_num (timer_head (fresh 2 0))) by (vm_compute; split; discriminate).
  assert (H2 : u32 5 <> id_seq (timer_id (obj (fresh 2 0) 1))) by (vm_compute; discriminate).
  split; [exact H|]. split; [exact H1|]. split; [exact H2|].
  exact (proj1 (C3_stale_handle (fresh 2 0) (fun _ => []) [1; 2] 10 1 5 H H1 H2)).
Defined.


(** C2 (code defect): the one-shot timers A (slot 2, the head of bucket 5)
    and B (slot 1, A's [next]) are due at tick 5; A's callback deletes B and
    then A.  After the callback, A's slot is no longer used, so the walk goes
    on from the saved [next], B; B is not used either, so the [continue]
    keeps [pos] on A, and the walk fires the freed slot A again, forever
    (its callback now finds both handles invalid).  [Update] to tick 5 does
    not return whatever the fuel. *)
Theorem C2_update_never_returns :
  forall fuel, Update cb_del_next_then_self fuel 5 two_timers = None.
Proof.
  intros fuel. destruct fuel as [|f]; [vm_compute; reflexivity|].
  unfold Update.
  replace (used_num (timer_head two_timers) =? 0) with false by (vm_compute; reflexivity).
  replace (Z.to_nat (to_int32 (5 - cur_bucket_time (timer_head two_timers)))) with 5%nat
    by (vm_compute; reflexivity).
  do 4 (rewrite for_ticks_empty by (vm_compute; reflexivity)).
  cbn [for_ticks]. change (1 + 1 + 1 + 1 + 1) with 5.
  replace (bucket two_timers ((cur_bucket_pos (timer_head two_timers) + 5) mod kTimerBucketNum))
    with 2 by (vm_compute; reflexivity).
  destruct two_timers_first_fire as (s1 & E & Hf).
  rewrite walk_S. cbn [Z.eqb Pos.eqb]. rewrite E.
  destruct Hf as (Hu1 & Hrest). rewrite Hu1. cbn [nz negb Z.eqb andb].
  rewrite (walk_freed_loop f s1 (conj Hu1 Hrest)). reflexivity.
Qed.



(** * Further properties of the code *)

(** ** More fuel does not change a result. *)
Section Fuel.
Context {Data : Type}.
Notation W := (@Wheel Data).
Variable OnTimeout : Z -> Data -> W -> W.

Lemma walk_mono f f' i now pos (s : W) x :
  walk OnTimeout f i now pos s = Some x -> (f <= f')%nat -> walk OnTimeout f' i now pos s = Some x.
Proof.
  revert f' pos s x. induction f as [|f IH]; intros f' pos s x E Hle; [discriminate|].
  destruct f' as [|f']; [lia|]. rewrite walk_S in E |- *.
  destruct (pos =? 0); [exact E|].
  destruct (walk_body OnTimeout i now pos s) as [[s1 id] nx]. cbv zeta in E |- *.
  destruct (walk OnTimeout f i now (if nz nx && (used (obj s1 nx) =? 0) then pos else nx) s1)
    as [[s2 tr]|] eqn:Ew; [|discriminate].
  rewrite (IH f' _ _ _ Ew) by lia. exact E.
Qed.

Lemma for_ticks_mono f f' now k : forall i (s : W) x,
  for_ticks OnTimeout f now i k s = Some x -> (f <= f')%nat ->
  for_ticks OnTimeout f' now i k s = Some x.
Proof.
  induction k as [|k IH]; intros i s x E Hle; [exact E|].
  cbn [for_ticks] in E |- *.
  destruct (walk OnTimeout f i now _ s) as [[s1 tr1]|] eqn:Ew; [|discriminate].
  rewrite (walk_mono _ _ _ _ _ _ _ Ew Hle).
  destruct (for_ticks OnTimeout f now (i + 1) k s1) as [[s2 tr2]|] eqn:Ef; [|discriminate].
  rewrite (IH _ _ _ Ef Hle). exact E.
Qed.

Lemma Update_mono f f' now (s : W) x :
  Update OnTimeout f now s = Some x -> (f <= f')%nat -> Update OnTimeout f' now s = Some x.
Proof.
  unfold Update. intros E Hle. destruct (_ =? 0); [exact E|].
  destruct (for_ticks OnTimeout f now 1 _ s) as [[s1 tr]|] eqn:Ef; [|discriminate].
  rewrite (for_ticks_mono _ _ _ _ _ _ _ Ef Hle). exact E.
Qed.

End Fuel.

(** ** Every reachable wheel is well formed. *)
Section Reach.
Context {Data : Type}.
Notation W := (@Wheel Data).

Lemma reachable_wf (s : W) : reachable s -> exists Ls F, WF s Ls F.
Proof.
  induction 1 as [mem ms ds os n now_sec time_now s Ei Hn
                 |s now I k d r s' _ IH E|s fuel id r s' _ IH E|s fuel now s' tr _ IH E].
  - eexists _, _. exact (Init_wf _ _ _ _ _ _ _ _ Ei Hn).
  - destruct IH as (Ls & F & H). destruct r as [h| | |].
    + destruct (AddTimer_ok s Ls F now I k d h s' H E) as (p & F' & _ & _ & H' & _).
      eexists _, _. exact H'.
    + rewrite (AddTimer_not_ok _ _ _ _ _ _ _ E ltac:(discriminate)). eauto.
    + rewrite (AddTimer_not_ok _ _ _ _ _ _ _ E ltac:(discriminate)). eauto.
    + rewrite (AddTimer_not_ok _ _ _ _ _ _ _ E ltac:(discriminate)). eauto.
  - destruct IH as (Ls & F & H). destruct r.
    + destruct (DelTimer_ok s Ls F fuel id s' H E) as (b & L1 & L2 & _ & _ & _ & _ & H' & _).
      eauto.
    + rewrite (DelTimer_not_ok _ _ _ _ _ E ltac:(discriminate)). eauto.
    + rewrite (DelTimer_not_ok _ _ _ _ _ E ltac:(discriminate)). eauto.
    + rewrite (DelTimer_not_ok _ _ _ _ _ E ltac:(discriminate)). eauto.
  - destruct IH as (Ls & F & H).
    set (f' := Nat.max fuel (S (Z.to_nat (max_num (timer_head s))))).
    apply (Update_mono _ _ f') in E; [|lia].
    destruct (Update_id f' now s Ls F H ltac:(lia)) as (s2 & E2 & H2 & _).
    rewrite E in E2. injection E2 as -> _. eauto.
Qed.

End Reach.

(** ** The header sizes checked when a block is re-attached. *)
Section Sizes.
Context {Data : Type}.
Notation W := (@Wheel Data).

Definition sizes (s : W) : Z * Z * Z :=
  (max_size (timer_head s), data_size (timer_head s), max_num (timer_head s)).

Lemma thread_free_sizes k (s : W) : sizes (thread_free k s) = sizes s.
Proof.
  revert s; induction k as [|k IH]; intros s; [reflexivity|].
  cbn [thread_free]. rewrite IH. reflexivity.
Qed.

Lemma Init_fields mem ms ds os n now_sec time_now (s : W) :
  Init mem ms ds os n now_sec time_now = Some s ->
  sizes s = (ms, ds, n) /\ used_num (timer_head s) = 0 /\
  cur_bucket_time (timer_head s) = now_sec /\ seq (timer_head s) = u32 time_now.
Proof.
  unfold Init. destruct (ms <? TotalMemSize os n); [discriminate|]. intros E.
  injection E as <-. set (s0 := mkWheel _ _ _).
  destruct (thread_free_frame (Z.to_nat n) s0) as (_ & _ & Hu & Hs & _ & Ht).
  rewrite thread_free_sizes, Hu, Hs, Ht. repeat split; reflexivity.
Qed.

Lemma set_obj_sizes (s : W) p o : sizes (set_obj s p o) = sizes s.
Proof. reflexivity. Qed.
Lemma set_bucket_sizes (s : W) b v : sizes (set_bucket s b v) = sizes s.
Proof. reflexivity. Qed.
Lemma link_front_sizes b p (s : W) : sizes (link_front b p s) = sizes s.
Proof. unfold link_front. destruct (nz _); reflexivity. Qed.
Lemma FreeNode_sizes p (s : W) : sizes (FreeNode p s) = sizes s.
Proof. reflexivity. Qed.
Lemma AllocNode_sizes (s : W) : sizes (snd (AllocNode s)) = sizes s.
Proof. unfold AllocNode. destruct (_ && _); reflexivity. Qed.
Lemma unlink_del_sizes b p (s : W) : sizes (unlink_del b p s) = sizes s.
Proof. unfold unlink_del. destruct (_ =? 0), (nz _); reflexivity. Qed.
Lemma unlink_update_sizes i p (s : W) : sizes (unlink_update i p s) = sizes s.
Proof. unfold unlink_update. destruct (nz _); destruct (nz _); reflexivity. Qed.
Lemma retire_or_rearm_sizes now p (s : W) : sizes (retire_or_rearm now p s) = sizes s.
Proof.
  unfold retire_or_rearm. destruct (_ && _); [reflexivity|].
  rewrite link_front_sizes. reflexivity.
Qed.

Lemma AddTimer_sizes now I k d (s : W) : sizes (snd (AddTimer now I k d s)) = sizes s.
Proof.
  unfold AddTimer. destruct (_ || _ || _); [reflexivity|]. destruct (_ <? _); [reflexivity|].
  pose proof (AllocNode_sizes s) as Ha. destruct (AllocNode s) as [pos s1]. cbn [snd] in Ha.
  destruct (pos =? 0); [exact Ha|]. cbn [snd]. rewrite link_front_sizes. exact Ha.
Qed.

Lemma DelTimer_sizes fuel id (s : W) r s' :
  DelTimer fuel id s = Some (r, s') -> sizes s' = sizes s.
Proof.
  unfold DelTimer. destruct (_ || _); [injection 1 as _ <-; reflexivity|].
  destruct (_ || _); [injection 1 as _ <-; reflexivity|].
  destruct (find_in_bucket _ _ _ _) as [nx|]; [|discriminate].
  destruct (nz nx); injection 1 as _ <-; [|reflexivity].
  rewrite FreeNode_sizes, unlink_del_sizes. reflexivity.
Qed.

Section Callback.
Variable OnTimeout : Z -> Data -> W -> W.
Hypothesis cb_sizes : forall h d s, sizes (OnTimeout h d s) = sizes s.

Lemma walk_sizes f i now : forall pos (s : W) s' tr,
  walk OnTimeout f i now pos s = Some (s', tr) -> sizes s' = sizes s.
Proof.
  induction f as [|f IH]; intros pos s s' tr E; [discriminate|].
  rewrite walk_S in E. destruct (pos =? 0); [injection E as <- _; reflexivity|].
  assert (Hb : sizes (fst (fst (walk_body OnTimeout i now pos s))) = sizes s).
  { unfold walk_body. cbv zeta. destruct (nz _); cbn [fst].
    - rewrite retire_or_rearm_sizes, unlink_update_sizes, cb_sizes. reflexivity.
    - rewrite cb_sizes. reflexivity. }
  destruct (walk_body OnTimeout i now pos s) as [[s1 id] nx]. cbv zeta in E.
  destruct (walk OnTimeout f i now _ s1) as [[s2 tr2]|] eqn:Ew; [|discriminate].
  injection E as <- _. rewrite (IH _ _ _ _ Ew). exact Hb.
Qed.

Lemma for_ticks_sizes f now k : forall i (s : W) s' tr,
  for_ticks OnTimeout f now i k s = Some (s', tr) -> sizes s' = sizes s.
Proof.
  induction k as [|k IH]; intros i s s' tr E; [injection E as <- _; reflexivity|].
  cbn [for_ticks] in E.
  destruct (walk OnTimeout f i now _ s) as [[s1 tr1]|] eqn:Ew; [|discriminate].
  destruct (for_ticks OnTimeout f now (i + 1) k s1) as [[s2 tr2]|] eqn:Ef; [|discriminate].
  injection E as <- _. rewrite (IH _ _ _ _ Ef). exact (walk_sizes _ _ _ _ _ _ _ Ew).
Qed.

Lemma Update_sizes f now (s : W) s' tr :
  Update OnTimeout f now s = Some (s', tr) -> sizes s' = sizes s.
Proof.
  unfold Update. destruct (_ =? 0); [injection 1 as <- _; reflexivity|].
  destruct (for_ticks OnTimeout f now 1 _ s) as [[s1 tr1]|] eqn:Ef; [|discriminate].
  injection 1 as <- _. exact (for_ticks_sizes _ _ _ _ _ _ _ Ef).
Qed.

End Callback.



End Sizes.

(** ** Extra properties. *)

(** X1: a fresh [Init(mem, max_size, timer_num)] fails with [-1], the block
    untouched, when [max_size < TotalMemSize(timer_num)]; otherwise it
    returns [0] and a well-formed empty wheel: no timer in any bucket, the
    free list holding the slots [1 .. timer_num] in increasing order,
    [Size() = 0], [Capacity() = timer_num], the clock at [now] and the
    sequence counter at [time(NULL)] mod [2 ^ 32]. *)
Theorem Init_mem_fresh_spec {Data : Type} (mem : @Wheel Data) ms ds os n now_sec time_now :
  0 <= n < 2 ^ 32 ->
  (ms < TotalMemSize os n -> Init_mem mem ms ds os n true now_sec time_now = (-1, mem)) /\
  (TotalMemSize os n <= ms ->
   exists s, Init_mem mem ms ds os n true now_sec time_now = (0, s) /\
     WF s (fun _ => []) (map Z.of_nat (List.seq 1 (Z.to_nat n))) /\
     Size s = 0 /\ Capacity s = n /\ sizes s = (ms, ds, n) /\
     cur_bucket_time (timer_head s) = now_sec /\ seq (timer_head s) = u32 time_now).
Proof.
  intros Hn. unfold Init_mem. split.
  - intros Hm. rewrite (proj2 (Z.ltb_lt _ _) Hm). reflexivity.
  - intros Hm. rewrite (proj2 (Z.ltb_ge _ _) Hm).
    destruct (Init mem ms ds os n now_sec time_now) as [s|] eqn:Ei.
    + destruct (Init_fields _ _ _ _ _ _ _ _ Ei) as (Hs & Hu & Hc & Hq).
      exists s. split; [reflexivity|]. split; [exact (Init_wf _ _ _ _ _ _ _ _ Ei Hn)|].
      unfold Size, Capacity. unfold sizes in Hs. injection Hs as E1 E2 E3. repeat split; try assumption. unfold sizes; congruence.
    + unfold Init in Ei. rewrite (proj2 (Z.ltb_ge _ _) Hm) in Ei. discriminate.
Qed.

Lemma Init_mem_fresh_spec_witness :
  0 <= 2 < 2 ^ 32 /\ TotalMemSize 64 2 <= 100000 /\
  exists s, Init_mem mem0 100000 8 64 2 true 0 0 = (0, s) /\
    WF s (fun _ => []) (map Z.of_nat (List.seq 1 (Z.to_nat 2))) /\ Size s = 0.
Proof.
  assert (Hn : 0 <= 2 < 2 ^ 32) by lia.
  assert (Hm : TotalMemSize 64 2 <= 100000) by (vm_compute; discriminate).
  split; [exact Hn|]. split; [exact Hm|].
  destruct (proj2 (Init_mem_fresh_spec mem0 100000 8 64 2 0 0 Hn) Hm) as (s & E & H & Hs & _).
  exists s. split; [exact E|]. split; [exact H|exact Hs].
Defined.



(** X3: [Init(key, timer_num)] with [key = 0] returns [0] and a well-formed
    empty wheel of [timer_num] slots (the block it allocates is exactly
    [TotalMemSize(timer_num)] bytes, which passes the size check); any other
    key returns [0] without setting up a wheel. *)
Theorem Init_key_spec {Data : Type} key (mem : @Wheel Data) ds os n now_sec time_now :
  0 <= n < 2 ^ 32 ->
  (key = 0 -> exists s, Init_key key mem ds os n now_sec time_now = (0, Some s) /\
     WF s (fun _ => []) (map Z.of_nat (List.seq 1 (Z.to_nat n))) /\
     Size s = 0 /\ Capacity s = n) /\
  (key <> 0 -> Init_key key mem ds os n now_sec time_now = (0, None)).
Proof.
  intros Hn. unfold Init_key. split.
  - intros ->. rewrite Z.eqb_refl.
    destruct (proj2 (Init_mem_fresh_spec mem (TotalMemSize os n) ds os n now_sec time_now Hn)
                (Z.le_refl _)) as (s & E & H & Hs & Hc & _).
    rewrite E. exists s. split; [reflexivity|]. split; [exact H|]. split; [exact Hs|exact Hc].
  - intros Hk. rewrite (proj2 (Z.eqb_neq _ _) Hk). reflexivity.
Qed.

Lemma Init_key_spec_witness :
  exists s, Init_key 0 mem0 8 64 3 0 0 = (0, Some s) /\ Size s = 0 /\ Capacity s = 3.
Proof.
  destruct (proj1 (Init_key_spec 0 mem0 8 64 3 0 0 ltac:(lia)) eq_refl) as (s & E & _ & Hs & Hc).
  exists s. repeat split; assumption.
Defined.

(** X4: on every wheel reachable from a fresh [Init] by [AddTimer],
    [DelTimer] and [Update] (with callbacks that leave the wheel alone),
    [Size()] is the number of slots linked into the bucket lists, [Size()]
    plus the length of the free list is [Capacity()], so
    [0 <= Size() <= Capacity()], and no two live timers share a handle. *)
Theorem reachable_size_capacity {Data : Type} (s : @Wheel Data) :
  reachable s ->
  exists Ls F, WF s Ls F /\ Size s = Z.of_nat (length (linked Ls)) /\
    Size s + Z.of_nat (length F) = Capacity s /\ 0 <= Size s <= Capacity s /\
    (forall p q, In p (linked Ls) -> In q (linked Ls) ->
       timer_id (obj s p) = timer_id (obj s q) -> p = q).
Proof.
  intros R. destruct (reachable_wf s R) as (Ls & F & H). exists Ls, F.
  pose proof (wf_used_num _ _ _ _ H) as Eu. rewrite app_nil_r in Eu.
  pose proof (wfd_total _ _ _ _ H) as Et. rewrite app_nil_r, length_app in Et.
  unfold Size, Capacity. split; [exact H|]. split; [exact Eu|]. split; [lia|]. split; [lia|].
  intros p q Hp Hq E.
  apply in_linked in Hp, Hq. destruct Hp as (b & Hb & Hp). destruct Hq as (c & Hc & Hq).
  destruct (wf_slot _ _ _ _ H b p Hb Hp) as (_ & _ & Ep).
  destruct (wf_slot _ _ _ _ H c q Hc Hq) as (_ & _ & Eq).
  rewrite <- Ep, <- Eq, E. reflexivity.
Qed.

Lemma reachable_size_capacity_witness :
  reachable two_timers /\ Size two_timers = 2 /\ Capacity two_timers = 2.
Proof.
  assert (R0 : reachable (fresh 2 0)).
  { apply (reach_init mem0 100000 8 64 2 0 0); [vm_compute; reflexivity|lia]. }
  assert (R : reachable two_timers).
  { exact (reach_add (after_add (AddTimer 0 5 1 2%nat (fresh 2 0))) 0 5 1 1%nat
             (fst (AddTimer 0 5 1 1%nat (after_add (AddTimer 0 5 1 2%nat (fresh 2 0))))) two_timers
             (reach_add (fresh 2 0) 0 5 1 2%nat (fst (AddTimer 0 5 1 2%nat (fresh 2 0)))
                (after_add (AddTimer 0 5 1 2%nat (fresh 2 0))) R0 (surjective_pairing _))
             (surjective_pairing _)). }
  split; [exact R|].
  destruct (reachable_size_capacity two_timers R) as (Ls & F & _ & _ & _ & _ & _).
  split; vm_compute; reflexivity.
Defined.

(** X5: on a well-formed wheel, the handle returned by a successful
    [AddTimer(interval)] at time [now] is accepted by [GetExpireTime], which
    returns [now + interval]. *)
Theorem AddTimer_GetExpireTime {Data : Type} (s : @Wheel Data) Ls F now I k d h s' :
  WF s Ls F -> AddTimer now I k d s = (AddOk h, s') -> GetExpireTime h s' = GetOk (now + I).
Proof.
  intros H E.
  destruct (AddTimer_ok s Ls F now I k d h s' H E) as (p & F' & EF & Eh & Hr).
  destruct Hr as (_ & Ho & _ & _ & _ & _ & Hm & _).
  assert (Hp : 1 <= p <= max_num (timer_head s)).
  { apply (wf_range _ _ _ _ H). rewrite EF. apply in_or_app. right. left. reflexivity. }
  pose proof (wf_max _ _ _ _ H) as HM.
  assert (Ep : id_pos h = p) by (rewrite Eh; apply id_pos_mk_id; lia).
  unfold GetExpireTime. rewrite Ep, Ho, Hm. cbn [timer_id used expire].
  rewrite (proj2 (Z.eqb_neq p 0)) by lia. rewrite (proj2 (Z.ltb_ge _ _)) by lia.
  rewrite Z.eqb_refl. reflexivity.
Qed.

Lemma AddTimer_GetExpireTime_witness :
  GetExpireTime (mk_id 1 0) (after_add (AddTimer 0 5 1 0%nat (fresh 2 0))) = GetOk 5.
Proof.
  assert (H : WF (fresh 2 0) (fun _ => []) [1; 2]).
  { apply (Init_wf mem0 100000 8 64 2 0 0); [vm_compute; reflexivity|lia]. }
  exact (AddTimer_GetExpireTime (fresh 2 0) (fun _ => []) [1; 2] 0 5 1 0%nat (mk_id 1 0)
           (after_add (AddTimer 0 5 1 0%nat (fresh 2 0))) H ltac:(vm_compute; reflexivity)).
Defined.

(** X6: on a well-formed wheel, deleting the handle just returned by a
    successful [AddTimer] succeeds (with enough fuel for the bucket walk)
    and gives back a wheel with the same bucket lists and free list as
    before the add, so [Size()] and [Capacity()] are restored. *)
Theorem AddTimer_DelTimer {Data : Type} (s : @Wheel Data) Ls F now I k d h s' fuel :
  WF s Ls F -> AddTimer now I k d s = (AddOk h, s') ->
  (length (linked Ls) + 1 < fuel)%nat ->
  exists s'', DelTimer fuel h s' = Some (DelOk, s'') /\ WF s'' Ls F /\
    Size s'' = Size s /\ Capacity s'' = Capacity s.
Proof.
  intros H E Hf.
  destruct (AddTimer_ok s Ls F now I k d h s' H E) as (p & F' & EF & Eh & Hr).
  cbv zeta in Hr. destruct Hr as (H' & Ho & _ & _ & _ & _ & _ & _).
  set (b := (now + I) mod kTimerBucketNum) in H'.
  assert (Hb : 0 <= b < kTimerBucketNum) by (unfold b, kTimerBucketNum; apply Z.mod_pos_bound; lia).
  assert (Hp : 1 <= p <= max_num (timer_head s)).
  { apply (wf_range _ _ _ _ H). rewrite EF. apply in_or_app. right. left. reflexivity. }
  pose proof (wf_max _ _ _ _ H) as HM.
  assert (Ep : id_pos h = p) by (rewrite Eh; apply id_pos_mk_id; lia).
  assert (HL : Ls b = Ls b) by reflexivity.
  assert (Hlen : length (linked (updL Ls b (p :: Ls b))) = S (length (linked Ls))).
  { rewrite (Permutation_length (linked_updL Ls b (p :: Ls b) Hb)).
    rewrite (Permutation_length (linked_split Ls b Hb)). reflexivity. }
  assert (Eb : updL Ls b (p :: Ls b) b = [] ++ id_pos h :: Ls b)
    by (rewrite updL_same, Ep; reflexivity).
  assert (Ht : timer_id (obj s' (id_pos h)) = h) by (rewrite Ep, Ho; reflexivity).
  destruct (DelTimer_linked s' (updL Ls b (p :: Ls b)) F' fuel h b [] (Ls b) H'
              ltac:(lia) Hb Eb Ht) as (Ed & H'' & _).
  rewrite Ep in H''.
  assert (H2 : WF (FreeNode p (unlink_canon b p s')) Ls F).
  { rewrite EF. apply (WF_ext _ (updL (updL Ls b (p :: Ls b)) b ([] ++ Ls b))); [|exact H''].
    intros c _. destruct (Z.eq_dec c b) as [->|Hc].
    - rewrite updL_same. reflexivity.
    - rewrite !updL_other by exact Hc. reflexivity. }
  exists (FreeNode p (unlink_canon b p s')). rewrite Ep in Ed.
  split; [exact Ed|]. split; [exact H2|].
  unfold Size, Capacity. split.
  - rewrite (wf_used_num _ _ _ _ H2), (wf_used_num _ _ _ _ H). reflexivity.
  - rewrite <- (wfd_total _ _ _ _ H2), <- (wfd_total _ _ _ _ H). reflexivity.
Qed.

Lemma AddTimer_DelTimer_witness :
  exists s'', DelTimer 10 (mk_id 1 0) (after_add (AddTimer 0 5 1 0%nat (fresh 2 0))) = Some (DelOk, s'') /\
    Size s'' = 0.
Proof.
  assert (H : WF (fresh 2 0) (fun _ => []) [1; 2]).
  { apply (Init_wf mem0 100000 8 64 2 0 0); [vm_compute; reflexivity|lia]. }
  destruct (AddTimer_DelTimer (fresh 2 0) (fun _ => []) [1; 2] 0 5 1 0%nat (mk_id 1 0)
           (after_add (AddTimer 0 5 1 0%nat (fresh 2 0))) 10 H ltac:(vm_compute; reflexivity)
           ltac:(vm_compute; lia)) as (s'' & Ed & _ & Es & _).
  exists s''. split; [exact Ed|]. rewrite Es. vm_compute. reflexivity.
Defined.

(** X7: on a well-formed wheel, once [DelTimer(id)] has succeeded the handle
    is dead: a second [DelTimer(id)] fails at its handle check (returning
    [-1]) and leaves the wheel unchanged, whatever the fuel, and
    [GetExpireTime(id)] fails at the same check. *)
Theorem DelTimer_twice {Data : Type} (s : @Wheel Data) Ls F fuel fuel' id s' :
  WF s Ls F -> DelTimer fuel id s = Some (DelOk, s') ->
  DelTimer fuel' id s' = Some (DelBadId, s') /\ GetExpireTime id s' = GetBadId.
Proof.
  intros H E.
  destruct (DelTimer_ok s Ls F fuel id s' H E)
    as (b & L1 & L2 & Hb & EL & _ & _ & _ & _ & Hu).
  assert (Hp : 1 <= id_pos id <= max_num (timer_head s)).
  { apply (wfd_in_b s Ls F [] b); [exact H|exact Hb|]. rewrite EL.
    apply in_or_app. right. left. reflexivity. }
  pose proof (DelTimer_sizes fuel id s DelOk s' E) as Hs. unfold sizes in Hs.
  assert (Hm : max_num (timer_head s') = max_num (timer_head s)) by congruence.
  unfold DelTimer, GetExpireTime. rewrite Hm, Hu.
  rewrite (proj2 (Z.eqb_neq (id_pos id) 0)) by lia. rewrite (proj2 (Z.ltb_ge _ _)) by lia.
  cbn [orb]. rewrite Z.eqb_refl, orb_true_r. split; reflexivity.
Qed.

Lemma DelTimer_twice_witness :
  exists s', DelTimer 10 (mk_id 1 0) (after_add (AddTimer 0 5 1 0%nat (fresh 2 0))) = Some (DelOk, s') /\
    DelTimer 10 (mk_id 1 0) s' = Some (DelBadId, s').
Proof.
  assert (H : WF (fresh 2 0) (fun _ => []) [1; 2]).
  { apply (Init_wf mem0 100000 8 64 2 0 0); [vm_compute; reflexivity|lia]. }
  destruct (AddTimer_ok (fresh 2 0) (fun _ => []) [1; 2] 0 5 1 0%nat (mk_id 1 0)
              (after_add (AddTimer 0 5 1 0%nat (fresh 2 0))) H ltac:(vm_compute; reflexivity))
    as (p & F' & _ & _ & H1 & _).
  set (s1 := after_add (AddTimer 0 5 1 0%nat (fresh 2 0))) in *.
  assert (Ed : DelTimer 10 (mk_id 1 0) s1 = Some (DelOk, after_del (DelTimer 10 (mk_id 1 0) s1) s1))
    by (vm_compute; reflexivity).
  exists (after_del (DelTimer 10 (mk_id 1 0) s1) s1). split; [exact Ed|].
  exact (proj1 (DelTimer_twice _ _ _ 10 10 (mk_id 1 0) _ H1 Ed)).
Defined.

(** X8: on a well-formed wheel, with fuel for the bucket walk, [DelTimer(id)]
    always returns, and it returns [0] exactly when [id] is the handle of a
    slot linked into one of the buckets. *)
Theorem DelTimer_live_iff {Data : Type} (s : @Wheel Data) Ls F fuel id :
  WF s Ls F -> (length (linked Ls) < fuel)%nat ->
  exists r s', DelTimer fuel id s = Some (r, s') /\
    (r = DelOk <-> In (id_pos id) (linked Ls) /\ timer_id (obj s (id_pos id)) = id).
Proof.
  intros H Hf.
  destruct (in_dec Z.eq_dec (id_pos id) (linked Ls)) as [Hin|Hin];
    [destruct (Z.eq_dec (timer_id (obj s (id_pos id))) id) as [Ht|Ht]|].
  - apply in_linked in Hin. destruct Hin as (b & Hb & Hin).
    destruct (in_split _ _ Hin) as (L1 & L2 & EL).
    destruct (DelTimer_linked s Ls F fuel id b L1 L2 H Hf Hb EL Ht) as (Ed & _).
    eexists _, _. split; [exact Ed|]. split; [intros _|reflexivity].
    split; [apply in_linked; exists b; split; assumption|exact Ht].
  - destruct (DelTimer_unlinked s Ls F fuel id H Hf ltac:(tauto)) as (r & Hr & Ed).
    exists r, s. split; [exact Ed|]. split; [contradiction|tauto].
  - destruct (DelTimer_unlinked s Ls F fuel id H Hf ltac:(tauto)) as (r & Hr & Ed).
    exists r, s. split; [exact Ed|]. split; [contradiction|tauto].
Qed.

Lemma DelTimer_live_iff_witness :
  exists r s', DelTimer 3 (mk_id 1 0) (fresh 2 0) = Some (r, s') /\ r <> DelOk.
Proof.
  assert (H : WF (fresh 2 0) (fun _ => []) [1; 2]).
  { apply (Init_wf mem0 100000 8 64 2 0 0); [vm_compute; reflexivity|lia]. }
  destruct (DelTimer_live_iff (fresh 2 0) (fun _ => []) [1; 2] 3 (mk_id 1 0) H
              ltac:(vm_compute; lia)) as (r & s' & Ed & Hiff).
  exists r, s'. split; [exact Ed|]. intros Er. apply Hiff in Er. destruct Er as [Hin _].
  vm_compute in Hin. exact Hin.
Defined.

(** X9: when the clock has not advanced past the wheel's time as [Update]
    measures it, i.e. [now - cur_bucket_time] read as an [int32] is not
    positive (the clock went back by at most 2^31 ticks, or jumped forward
    by between 2^31 and 2^32 ticks), [Update] fires nothing, invokes no callback,
    and only sets the wheel's clock to [now]; this holds for every callback
    and every state. *)
Theorem Update_no_advance {Data : Type} (OnTimeout : Z -> Data -> @Wheel Data -> @Wheel Data)
    fuel now (s : @Wheel Data) :
  let cur := cur_bucket_time (timer_head s) in
  cur - 2 ^ 31 <= now <= cur \/ cur + 2 ^ 31 <= now < cur + 2 ^ 32 ->
  Update OnTimeout fuel now s = Some (set_cur s now, []).
Proof.
  intros cur Hn.
  assert (Hw : to_int32 (now - cur) <= 0).
  { unfold to_int32.
    pose proof (Z.div_mod (now - cur) (2 ^ 32) ltac:(lia)) as Ed.
    pose proof (Z.mod_pos_bound (now - cur) (2 ^ 32) ltac:(lia)) as Hr.
    set (r := (now - cur) mod 2 ^ 32) in *. set (q := (now - cur) / 2 ^ 32) in *.
    destruct (Z.ltb_spec r (2 ^ 31)); lia. }
  unfold Update. fold cur.
  replace (Z.to_nat (to_int32 (now - cur))) with 0%nat by lia. cbn [for_ticks].
  destruct (_ =? 0); reflexivity.
Qed.

Lemma Update_no_advance_witness :
  Update cb_del_next_then_self 0 (-3) two_timers = Some (set_cur two_timers (-3), []).
Proof.
  apply (Update_no_advance cb_del_next_then_self 0 (-3) two_timers).
  vm_compute. left. split; discriminate.
Defined.

(** X10: with the no-op callback and enough fuel, [Update] on a well-formed
    wheel always returns, and leaves a well-formed wheel whose clock is [now]
    and whose [Capacity()] is unchanged. *)
Theorem Update_noop_wf {Data : Type} fuel now (s : @Wheel Data) Ls F :
  WF s Ls F -> (Z.to_nat (max_num (timer_head s)) < fuel)%nat ->
  exists s' tr Ls' F', Update cb_id fuel now s = Some (s', tr) /\ WF s' Ls' F' /\
    cur_bucket_time (timer_head s') = now /\ Capacity s' = Capacity s.
Proof.
  intros H Hf. destruct (Update_id fuel now s Ls F H Hf) as (s' & E & H' & _).
  eexists _, _, _, _. split; [exact E|]. split; [exact H'|]. split.
  - unfold set_cur. rewrite head_set_head. reflexivity.
  - pose proof (Update_sizes cb_id (fun _ _ _ => eq_refl) fuel now s _ _ E) as Hs.
    unfold sizes in Hs. unfold Capacity. congruence.
Qed.

Lemma Update_noop_wf_witness :
  exists s' tr, Update cb_id 3 7 (after_add (AddTimer 0 5 1 0%nat (fresh 2 0))) = Some (s', tr).
Proof.
  assert (H : WF (fresh 2 0) (fun _ => []) [1; 2]).
  { apply (Init_wf mem0 100000 8 64 2 0 0); [vm_compute; reflexivity|lia]. }
  destruct (AddTimer_ok (fresh 2 0) (fun _ => []) [1; 2] 0 5 1 0%nat (mk_id 1 0)
              (after_add (AddTimer 0 5 1 0%nat (fresh 2 0))) H ltac:(vm_compute; reflexivity))
    as (p & F' & _ & _ & H1 & _).
  destruct (Update_noop_wf 3 7 _ _ _ H1 ltac:(vm_compute; lia)) as (s' & tr & _ & _ & E & _).
  exists s', tr. exact E.
Defined.

(** X11: on a well-formed wheel, the slot freed by a successful [DelTimer] is
    the one the next successful [AddTimer] allocates. *)
Theorem DelTimer_AddTimer_reuse {Data : Type} (s : @Wheel Data) Ls F fuel id s' now I k d h s'' :
  WF s Ls F -> DelTimer fuel id s = Some (DelOk, s') ->
  AddTimer now I k d s' = (AddOk h, s'') -> id_pos h = id_pos id.
Proof.
  intros H Ed Ea.
  destruct (DelTimer_ok s Ls F fuel id s' H Ed) as (b & L1 & L2 & _ & _ & _ & _ & H' & _).
  destruct (AddTimer_ok s' _ _ now I k d h s'' H' Ea) as (p & F' & EF & Eh & _).
  injection EF as <- _.
  assert (Hp : 1 <= id_pos id <= max_num (timer_head s')).
  { apply (wf_range _ _ _ _ H'). apply in_or_app. right. left. reflexivity. }
  pose proof (wf_max _ _ _ _ H'). rewrite Eh. apply id_pos_mk_id. lia.
Qed.

Lemma DelTimer_AddTimer_reuse_witness :
  exists s' h s'', DelTimer 10 (mk_id 1 0) two_timers = Some (DelOk, s') /\
    AddTimer 0 5 1 0%nat s' = (AddOk h, s'') /\ id_pos h = 1.
Proof.
  assert (H : WF (fresh 2 0) (fun _ => []) [1; 2]).
  { apply (Init_wf mem0 100000 8 64 2 0 0); [vm_compute; reflexivity|lia]. }
  destruct (AddTimer_ok (fresh 2 0) (fun _ => []) [1; 2] 0 5 1 2%nat (mk_id 1 0)
              (after_add (AddTimer 0 5 1 2%nat (fresh 2 0))) H ltac:(vm_compute; reflexivity))
    as (p & F' & EF & _ & H1 & _).
  injection EF as <- <-. cbv zeta in H1.
  destruct (AddTimer_ok _ _ _ 0 5 1 1%nat (mk_id 2 1) two_timers H1 ltac:(vm_compute; reflexivity))
    as (p2 & F2 & EF2 & _ & H2 & _).
  injection EF2 as <- <-. cbv zeta in H2.
  set (s' := after_del (DelTimer 10 (mk_id 1 0) two_timers) two_timers).
  assert (Ed : DelTimer 10 (mk_id 1 0) two_timers = Some (DelOk, s')) by (vm_compute; reflexivity).
  assert (Ea : AddTimer 0 5 1 0%nat s' = (AddOk (mk_id 1 2), after_add (AddTimer 0 5 1 0%nat s')))
    by (vm_compute; reflexivity).
  exists s', (mk_id 1 2), (after_add (AddTimer 0 5 1 0%nat s')).
  split; [exact Ed|]. split; [exact Ea|].
  exact (DelTimer_AddTimer_reuse _ _ _ 10 (mk_id 1 0) s' 0 5 1 0%nat _ _ H2 Ed Ea).
Defined.

(** X12: on a well-formed wheel, two successive successful [AddTimer] calls
    return handles for different slots whose sequence numbers are
    consecutive modulo 2^32. *)
Theorem AddTimer_AddTimer_seq {Data : Type} (s : @Wheel Data) Ls F
    now1 I1 k1 d1 h1 s1 now2 I2 k2 d2 h2 s2 :
  WF s Ls F -> AddTimer now1 I1 k1 d1 s = (AddOk h1, s1) ->
  AddTimer now2 I2 k2 d2 s1 = (AddOk h2, s2) ->
  id_pos h2 <> id_pos h1 /\ id_seq h2 = u32 (id_seq h1 + 1).
Proof.
  intros H E1 E2.
  destruct (AddTimer_ok_args _ _ _ _ _ _ _ E1) as (HI & Hk & Hc).
  pose proof (AddTimer_spec s Ls F now1 I1 k1 d1 H HI Hk Hc) as Hs.
  destruct (AddTimer_ok s Ls F now1 I1 k1 d1 h1 s1 H E1) as (p & F' & EF & Eh1 & Hr).
  cbv zeta in Hr. destruct Hr as (H1 & _).
  subst F. destruct Hs as (s1' & E1' & _ & _ & _ & _ & _ & _ & Esq & _).
  rewrite E1 in E1'. injection E1' as _ <-.
  destruct (AddTimer_ok s1 _ F' now2 I2 k2 d2 h2 s2 H1 E2) as (p2 & F2 & EF2 & Eh2 & _).
  pose proof (wf_max _ _ _ _ H) as HM. pose proof (wf_seq _ _ _ _ H) as HS.
  assert (Hp : 1 <= p <= max_num (timer_head s)).
  { apply (wf_range _ _ _ _ H). apply in_or_app. right. left. reflexivity. }
  assert (Hm : max_num (timer_head s1) = max_num (timer_head s)).
  { pose proof (AddTimer_sizes now1 I1 k1 d1 s) as Hz. rewrite E1 in Hz. cbn [snd] in Hz.
    unfold sizes in Hz. congruence. }
  assert (Hp2 : 1 <= p2 <= max_num (timer_head s)).
  { rewrite <- Hm. apply (wf_range _ _ _ _ H1). rewrite EF2. apply in_or_app. right. left. reflexivity. }
  assert (Hn : p2 <> p).
  { pose proof (wf_nodup _ _ _ _ H) as ND. rewrite EF2 in ND.
    apply NoDup_remove_2 in ND. intros ->. apply ND.
    apply in_or_app. right. left. reflexivity. }
  rewrite Eh1, Eh2, !id_pos_mk_id, !id_seq_mk_id, Esq by lia. split; [exact Hn|].
  unfold u32. rewrite Z.mod_mod, (Z.mod_small (seq (timer_head s))) by lia. reflexivity.
Qed.

Lemma AddTimer_AddTimer_seq_witness :
  id_pos idA <> id_pos idB /\ id_seq idA = u32 (id_seq idB + 1).
Proof.
  assert (H : WF (fresh 2 0) (fun _ => []) [1; 2]).
  { apply (Init_wf mem0 100000 8 64 2 0 0); [vm_compute; reflexivity|lia]. }
  exact (AddTimer_AddTimer_seq (fresh 2 0) _ _ 0 5 1 2%nat idB _ 0 5 1 1%nat idA two_timers H
           ltac:(vm_compute; reflexivity) ltac:(vm_compute; reflexivity)).
Defined.

(** X13: on a well-formed wheel, a successful [DelTimer(id)] decreases
    [Size()] by one and changes the answer of [GetExpireTime] for no handle
    whose slot differs from that of [id]. *)
Theorem DelTimer_frame {Data : Type} (s : @Wheel Data) Ls F fuel id s' :
  WF s Ls F -> DelTimer fuel id s = Some (DelOk, s') ->
  Size s' = Size s - 1 /\ Capacity s' = Capacity s /\
  (forall id', id_pos id' <> id_pos id -> GetExpireTime id' s' = GetExpireTime id' s).
Proof.
  intros H E.
  destruct (DelTimer_ok s Ls F fuel id s' H E)
    as (b & L1 & L2 & Hb & EL & _ & _ & H' & Hpl & _).
  pose proof (DelTimer_sizes fuel id s DelOk s' E) as Hs. unfold sizes in Hs.
  assert (Hm : max_num (timer_head s') = max_num (timer_head s)) by congruence.
  unfold Size, Capacity. split; [|split; [exact Hm|]].
  - rewrite (wf_used_num _ _ _ _ H'), (wf_used_num _ _ _ _ H), !app_nil_r.
    rewrite (Permutation_length (linked_updL Ls b (L1 ++ L2) Hb)),
      (Permutation_length (linked_split Ls b Hb)), EL, !length_app. cbn [length]. lia.
  - intros id' Hn. unfold GetExpireTime. rewrite Hm.
    rewrite (timer_id_payload _ _ (Hpl _ Hn)), (used_payload _ _ (Hpl _ Hn)),
      (expire_payload _ _ (Hpl _ Hn)). reflexivity.
Qed.

Lemma DelTimer_frame_witness :
  exists s', DelTimer 10 idB two_timers = Some (DelOk, s') /\ Size s' = 1 /\
    GetExpireTime idA s' = GetOk 5.
Proof.
  assert (H : WF (fresh 2 0) (fun _ => []) [1; 2]).
  { apply (Init_wf mem0 100000 8 64 2 0 0); [vm_compute; reflexivity|lia]. }
  destruct (AddTimer_ok (fresh 2 0) (fun _ => []) [1; 2] 0 5 1 2%nat (mk_id 1 0)
              (after_add (AddTimer 0 5 1 2%nat (fresh 2 0))) H ltac:(vm_compute; reflexivity))
    as (p & F' & EF & _ & H1 & _).
  injection EF as <- <-. cbv zeta in H1.
  destruct (AddTimer_ok _ _ _ 0 5 1 1%nat (mk_id 2 1) two_timers H1 ltac:(vm_compute; reflexivity))
    as (p2 & F2 & EF2 & _ & H2 & _).
  injection EF2 as <- <-. cbv zeta in H2.
  set (s' := after_del (DelTimer 10 idB two_timers) two_timers).
  assert (Ed : DelTimer 10 idB two_timers = Some (DelOk, s')) by (vm_compute; reflexivity).
  destruct (DelTimer_frame _ _ _ 10 idB s' H2 Ed) as (Es & _ & Eg).
  exists s'. split; [exact Ed|]. split.
  - rewrite Es. vm_compute. reflexivity.
  - rewrite Eg by (vm_compute; discriminate). vm_compute. reflexivity.
Defined.

(** X14: on a well-formed wheel, a successful [AddTimer] increases [Size()]
    by one, keeps [Capacity()], and changes the answer of [GetExpireTime]
    for no handle whose slot differs from that of the new handle. *)
Theorem AddTimer_frame {Data : Type} (s : @Wheel Data) Ls F now I k d h s' :
  WF s Ls F -> AddTimer now I k d s = (AddOk h, s') ->
  Size s' = Size s + 1 /\ Capacity s' = Capacity s /\
  (forall id', id_pos id' <> id_pos h -> GetExpireTime id' s' = GetExpireTime id' s).
Proof.
  intros H E.
  destruct (AddTimer_ok s Ls F now I k d h s' H E) as (p & F' & EF & Eh & Hr).
  cbv zeta in Hr. destruct Hr as (_ & _ & Hpl & _ & _ & Eu & Hm & _).
  assert (Hp : 1 <= p <= max_num (timer_head s)).
  { apply (wf_range _ _ _ _ H). rewrite EF. apply in_or_app. right. left. reflexivity. }
  pose proof (wf_max _ _ _ _ H) as HM.
  assert (Ep : id_pos h = p) by (rewrite Eh; apply id_pos_mk_id; lia).
  unfold Size, Capacity. split; [exact Eu|]. split; [exact Hm|].
  intros id' Hn. rewrite Ep in Hn. unfold GetExpireTime. rewrite Hm.
  rewrite (timer_id_payload _ _ (Hpl _ Hn)), (used_payload _ _ (Hpl _ Hn)),
    (expire_payload _ _ (Hpl _ Hn)). reflexivity.
Qed.

Lemma AddTimer_frame_witness :
  Size two_timers = 2 /\ GetExpireTime idB two_timers = GetOk 5.
Proof.
  assert (H : WF (fresh 2 0) (fun _ => []) [1; 2]).
  { apply (Init_wf mem0 100000 8 64 2 0 0); [vm_compute; reflexivity|lia]. }
  destruct (AddTimer_ok (fresh 2 0) (fun _ => []) [1; 2] 0 5 1 2%nat (mk_id 1 0)
              (after_add (AddTimer 0 5 1 2%nat (fresh 2 0))) H ltac:(vm_compute; reflexivity))
    as (p & F' & EF & _ & H1 & _).
  injection EF as <- <-. cbv zeta in H1.
  destruct (AddTimer_frame _ _ _ 0 5 1 1%nat idA two_timers H1 ltac:(vm_compute; reflexivity))
    as (Es & _ & Eg).
  split.
  - rewrite Es. vm_compute. reflexivity.
  - rewrite Eg by (vm_compute; discriminate). vm_compute. reflexivity.
Defined.
